(** * blossom-client-sdk: the upload actions

    A shallow embedding of [src/actions/upload.ts] and of the properties its
    specification states about it: the single-server [uploadBlob] handshake
    (in its two forms, one built on [fetchWithHandlers], one on a [switch]
    over the status of the check), and [multiServerUpload] with its
    credential cache, payment handling and mirror-first loop.

    Asynchronous code is sequential here ([await] is just sequencing), so a
    computation is a function from the state of the world to a result and a
    new state.  Everything the code does to the outside (a [fetch], a call of
    one of the caller's callbacks) is appended to a trace, and the outside
    answers as a function of the trace so far: servers and callbacks may
    depend on everything that happened before. *)

From stdpp Require Import gmap strings list fin_maps pretty.
From Stdlib Require Import ZArith.

Local Open Scope string_scope.
Local Open Scope Z_scope.
Local Open Scope list_scope.

(** ** What the module imports

    The helpers of [../helpers.js], [../auth.js], [../types.js] and
    [@cashu/cashu-ts] are functions on opaque data; they are taken as
    parameters. Three of the things the code relies on can fail, and throw
    an [Error], given here by its name and its message: [new URL(path,
    server)] when the server is not a URL ([canParse] tells), the dynamic
    [import("@cashu/cashu-ts")] ([importCashu] is the error, if any), and
    [getPaymentRequestFromHeaders] when the headers hold no payment request
    that can be read. *)

Class Externals := {
  Blob : Type;
  BlobDescriptor : Type;
  SignedEvent : Type;
  Token : Type;
  PaymentRequest : Type;
  getBlobSha256 : Blob → string;
  getBlobSize : Blob → N;
  getBlobType : Blob → option string;
  canParse : string → bool;
  importCashu : option (string * string);
  getPaymentRequestFromHeaders :
    gmap string string → PaymentRequest + (string * string);
  getEncodedToken : Token → string;
  encodeAuthorizationHeader : SignedEvent → string;
  doseAuthMatchUpload : SignedEvent → string → Blob → bool;
}.

(** [if (type)]: [undefined] and the empty string are falsy. *)
Definition truthy (s : option string) : bool :=
  match s with
  | Some EmptyString | None => false
  | Some _ => true
  end.

Inductive Method := HEAD | PUT.

(** An [AbortSignal]; whether and when it fires is up to the outside. *)
Inductive AbortSignal := Signal (id : nat).

Global Instance AbortSignal_eq_dec : EqDecision AbortSignal.
Proof. solve_decision. Defined.

Section world.
Context `{Externals}.

(** [new URL(path, server)] *)
Record URL := mkURL { path : string; base : string }.

Inductive RequestBody :=
| NoBody
| BlobBody (blob : Blob)
| SourceBody (source : BlobDescriptor).

Record Request := mkRequest {
  method : Method;
  url : URL;
  signal : option AbortSignal;
  headers : gmap string string;
  body : RequestBody;
}.

(** What [res.json()] finds: a JSON value, [None] standing for the falsy
    ones ([null], [false], [0], the empty string), or a body that is not
    JSON. *)
Inductive ResponseBody :=
| Json (value : option BlobDescriptor)
| Text (raw : string).

Record Response := mkResponse {
  status : Z;
  res_headers : gmap string string;
  res_body : ResponseBody;
}.

(** Thrown values. [HTTPError] extends [Error]; a callback may reject with
    anything. *)
Inductive Exn :=
| Error (name message : string)
| HTTPError (code : Z) (content : ResponseBody)
| NonError (value : string).

Definition instanceofError (e : Exn) : bool :=
  match e with
  | Error _ _ | HTTPError _ _ => true
  | NonError _ => false
  end.

Inductive Result (A : Type) :=
| Ok (a : A)
| Throw (e : Exn).
Global Arguments Ok {A} a.
Global Arguments Throw {A} e.

Inductive Event :=
| EvFetch (req : Request) (res : Result Response)
| EvOnAuth (server : string) (blob : Blob) (res : Result SignedEvent)
| EvOnPayment (server : string) (blob : Blob) (request : PaymentRequest)
    (res : Result Token)
| EvOnUpload (server : string) (blob : Blob) (res : Result unit)
| EvOnError (server : string) (blob : Blob) (error : Exn) (res : Result unit).

(** The state a run threads: the trace, and the variables that the closures
    of one [multiServerUpload] call share. *)
Record World := mkWorld {
  trace : list Event;
  authEvents : list SignedEvent;
  initialUpload : option BlobDescriptor;
  results : gmap string (option BlobDescriptor);
}.

Definition M (A : Type) : Type := World → Result A * World.

Definition ret {A} (a : A) : M A := λ w, (Ok a, w).
Definition throw {A} (e : Exn) : M A := λ w, (Throw e, w).
Definition bind {A B} (c : M A) (k : A → M B) : M B :=
  λ w, match c w with
       | (Ok a, w') => k a w'
       | (Throw e, w') => (Throw e, w')
       end.

(** [try { c } catch (error) { h error }] *)
Definition try_catch {A} (c : M A) (h : Exn → M A) : M A :=
  λ w, match c w with
       | (Ok a, w') => (Ok a, w')
       | (Throw e, w') => h e w'
       end.

Definition lift {A} (r : Result A) : M A := λ w, (r, w).
Definition get {A} (f : World → A) : M A := λ w, (Ok (f w), w).
Definition modify (f : World → World) : M unit := λ w, (Ok tt, f w).
Definition emit (e : Event) : M unit :=
  modify (λ w, mkWorld (trace w ++ [e]) (authEvents w) (initialUpload w) (results w)).

(** The network: what a request is answered with, after a given history. A
    rejected [fetch] (no connection, an abort) is a [Throw]. *)
Definition Network := list Event → Request → Result Response.

End world.

Notation "'let*' x ':=' c 'in' k" := (bind c (λ x, k))
  (at level 10, x name, c at level 100, k at level 200, only parsing).
Notation "'do' c 'in' k" := (bind c (λ _, k))
  (at level 10, c at level 100, k at level 200, only parsing).

Section primitives.
Context `{Externals} (net : Network).

Definition fetch (req : Request) : M Response :=
  λ w, let r := net (trace w) req in
       bind (emit (EvFetch req r)) (λ _, lift r) w.

(** [new URL(path, server)]: a [TypeError] when the server is not a URL. *)
Definition newURL (path server : string) : M URL :=
  if canParse server then ret (mkURL path server)
  else throw (Error "TypeError" "Invalid URL").

(** [const { getEncodedToken } = await import("@cashu/cashu-ts")] *)
Definition dynamicImport : M unit :=
  match importCashu with
  | None => ret tt
  | Some (name, message) => throw (Error name message)
  end.

(** [getPaymentRequestFromHeaders(res.headers)], which throws when it finds
    no request to read. *)
Definition readPaymentRequest (headers : gmap string string)
    : M PaymentRequest :=
  match getPaymentRequestFromHeaders headers with
  | inl request => ret request
  | inr (name, message) => throw (Error name message)
  end.

Definition ok (res : Response) : bool :=
  bool_decide (200 ≤ status res ≤ 299).

Definition json (res : Response) : M (option BlobDescriptor) :=
  match res_body res with
  | Json v => ret v
  | Text _ => throw (Error "SyntaxError" "Unexpected token")
  end.

(** Modelled from the spec: [HTTPError.handleErrorResponse] of [../error.js],
    which is not among the sources.  "any other non-success status →
    terminal [HTTPError] carrying the status and response body". *)
Definition handleErrorResponse (res : Response) : M unit :=
  if ok res then ret tt else throw (HTTPError (status res) (res_body res)).

(** Modelled from the spec: [fetchWithHandlers] of [../fetch.js], which is
    not among the sources.  It takes a table of handlers by status: the
    request is sent, and a response whose status has a handler is given to
    it, the handler's response taking its place. *)
Definition fetchWithHandlers (req : Request)
    (handlers : gmap Z (Response → M Response)) : M Response :=
  let* res := fetch req in
  match handlers !! status res with
  | Some h => h res
  | None => ret res
  end.

(** The caller's callbacks are part of the outside: what they return may
    depend on the history, and each call is recorded. *)
Definition callOnAuth (f : string → Blob → list Event → Result SignedEvent)
    (server : string) (blob : Blob) : M SignedEvent :=
  let* t := get trace in
  let r := f server blob t in
  do emit (EvOnAuth server blob r) in lift r.

Definition callOnPayment
    (f : string → Blob → PaymentRequest → list Event → Result Token)
    (server : string) (blob : Blob) (request : PaymentRequest) : M Token :=
  let* t := get trace in
  let r := f server blob request t in
  do emit (EvOnPayment server blob request r) in lift r.

Definition callOnUpload (f : string → Blob → list Event → Result unit)
    (server : string) (blob : Blob) : M unit :=
  let* t := get trace in
  let r := f server blob t in
  do emit (EvOnUpload server blob r) in lift r.

Definition callOnError (f : string → Blob → Exn → list Event → Result unit)
    (server : string) (blob : Blob) (error : Exn) : M unit :=
  let* t := get trace in
  let r := f server blob error t in
  do emit (EvOnError server blob error r) in lift r.

End primitives.

(** ** [uploadBlob], built on [fetchWithHandlers] (upload.ts, lines 11-89) *)

Module ViaHandlers.
Section defs.
Context `{Externals} (net : Network).

Record UploadOptions := mkOptions {
  opts_signal : option AbortSignal;
  opts_auth : option SignedEvent;
  opts_onPayment : option (string → Blob → PaymentRequest → M Token);
  opts_onAuth : option (string → Blob → M SignedEvent);
}.

(** The handler of a 402: pay, and try the upload with the payment. *)
Definition on402 (server : string) (blob : Blob) (opts : UploadOptions)
    (res : Response) : M Response :=
  match opts_onPayment opts with
  | None => throw (Error "Error" "Missing payment handler")
  | Some onPayment =>
      do dynamicImport in
      let* request := readPaymentRequest (res_headers res) in
      let* token := onPayment server blob request in
      let payment := getEncodedToken token in
      fetch net (mkRequest PUT (mkURL "/upload" server) (opts_signal opts)
                   {[ "X-Cashu" := payment ]} (BlobBody blob))
  end.

(** The handler of a 403: [opts?.auth || (await opts?.onAuth?.(server, blob))],
    and try the upload with the auth. *)
Definition on403 (server : string) (blob : Blob) (opts : UploadOptions)
    (_res : Response) : M Response :=
  let* auth :=
    match opts_auth opts with
    | Some auth => ret (Some auth)
    | None =>
        match opts_onAuth opts with
        | Some onAuth => let* auth := onAuth server blob in ret (Some auth)
        | None => ret None
        end
    end in
  match auth with
  | None => throw (Error "Error" "Missing auth handler")
  | Some auth =>
      fetch net (mkRequest PUT (mkURL "/upload" server) (opts_signal opts)
                   {[ "Authorization" := encodeAuthorizationHeader auth ]}
                   (BlobBody blob))
  end.

Definition checkHeaders (blob : Blob) : gmap string string :=
  let headers : gmap string string :=
    <[ "X-Content-Length" := pretty (getBlobSize blob) ]>
      {[ "X-SHA-256" := getBlobSha256 blob ]} in
  let type := getBlobType blob in
  if truthy type then <[ "X-Content-Type" := default "" type ]> headers
  else headers.

Definition uploadBlob (server : string) (blob : Blob) (opts : UploadOptions)
    : M (option BlobDescriptor) :=
  let* url := newURL "/upload" server in
  let headers := checkHeaders blob in
  (* check upload with HEAD /upload *)
  let* check :=
    fetchWithHandlers net
      (mkRequest HEAD url (opts_signal opts) headers NoBody)
      (<[ 402 := on402 server blob opts ]>
         (<[ 403 := on403 server blob opts ]> ∅)) in
  (* handle errors *)
  do handleErrorResponse check in
  (* check passed, free upload *)
  let* upload :=
    fetch net (mkRequest PUT url (opts_signal opts) ∅ (BlobBody blob)) in
  (* check upload errors *)
  do handleErrorResponse upload in
  (* return blob descriptor *)
  json upload.

(** The options of a caller whose callbacks are its own. *)
Definition callerOptions (signal : option AbortSignal)
    (auth : option SignedEvent)
    (onPayment : option (string → Blob → PaymentRequest → list Event → Result Token))
    (onAuth : option (string → Blob → list Event → Result SignedEvent))
    : UploadOptions :=
  mkOptions signal auth (callOnPayment <$> onPayment) (callOnAuth <$> onAuth).

End defs.
End ViaHandlers.

(** ** [uploadBlob], with a [switch] on the status of the check
    (upload.ts, lines 180-271) *)

Module ViaSwitch.
Section defs.
Context `{Externals} (net : Network).

Record UploadOptions := mkOptions {
  opts_signal : option AbortSignal;
  opts_auth : option SignedEvent;
  opts_onPayment : option (string → string → Blob → PaymentRequest → M Token);
  opts_onAuth : option (string → string → Blob → M SignedEvent);
}.

(** [opts?.auth || (await opts?.onAuth?.(server, sha256, blob))] *)
Definition resolveAuth (server : string) (blob : Blob) (opts : UploadOptions)
    : M (option SignedEvent) :=
  match opts_auth opts with
  | Some auth => ret (Some auth)
  | None =>
      match opts_onAuth opts with
      | Some onAuth =>
          let* auth := onAuth server (getBlobSha256 blob) blob in ret (Some auth)
      | None => ret None
      end
  end.

Definition uploadHeaders (blob : Blob) (auth : option SignedEvent)
    : gmap string string :=
  let headers : gmap string string := {[ "X-SHA-256" := getBlobSha256 blob ]} in
  match auth with
  | Some auth => <[ "Authorization" := encodeAuthorizationHeader auth ]> headers
  | None => headers
  end.

(** build check headers *)
Definition checkHeaders (blob : Blob) (headers : gmap string string)
    : gmap string string :=
  let checkHeaders := <[ "X-Content-Length" := pretty (getBlobSize blob) ]> headers in
  let type := getBlobType blob in
  if truthy type then <[ "X-Content-Type" := default "" type ]> checkHeaders
  else checkHeaders.

Definition uploadBlob (server : string) (blob : Blob) (opts : UploadOptions)
    : M (option BlobDescriptor) :=
  let* url := newURL "/upload" server in
  let sha256 := getBlobSha256 blob in
  let* auth := resolveAuth server blob opts in
  let headers := uploadHeaders blob auth in
  (* check upload with HEAD /upload *)
  let* firstTry :=
    fetch net (mkRequest HEAD url (opts_signal opts) (checkHeaders blob headers)
                 NoBody) in
  (* handle auth and payment *)
  let* headers :=
    if decide (status firstTry = 401) then
      match auth with
      | None => throw (Error "Error" "Missing auth handler")
      | Some _ => throw (Error "Error" "Unable to authenticate")
      end
    else if decide (status firstTry = 402) then
      match opts_onPayment opts with
      | None => throw (Error "Error" "Missing payment handler")
      | Some onPayment =>
          do dynamicImport in
          let* request := readPaymentRequest (res_headers firstTry) in
          let* token := onPayment server sha256 blob request in
          let payment := getEncodedToken token in
          ret (<[ "X-Cashu" := payment ]> headers)
      end
    else if decide (status firstTry = 403) then
      throw (Error "Error" "Unauthorized")
    else ret headers in
  (* check passed, upload *)
  let* upload :=
    fetch net (mkRequest PUT url (opts_signal opts) headers (BlobBody blob)) in
  (* handle errors *)
  do handleErrorResponse upload in
  (* return blob descriptor *)
  json upload.

(** The options of a caller whose callbacks are its own. *)
Definition callerOptions (signal : option AbortSignal)
    (auth : option SignedEvent)
    (onPayment : option (string → Blob → PaymentRequest → list Event → Result Token))
    (onAuth : option (string → Blob → list Event → Result SignedEvent))
    : UploadOptions :=
  mkOptions signal auth
    ((λ f server (_ : string), callOnPayment f server) <$> onPayment)
    ((λ f server (_ : string), callOnAuth f server) <$> onAuth).

End defs.
End ViaSwitch.

(** ** [mirrorBlob] *)

Section mirror.
Context `{Externals} (net : Network).

(** Modelled from the spec: the options of [mirrorBlob], those of an upload
    ("credentialResolver, paymentResolver, cancellationToken"), with
    resolvers that are given the descriptor. *)
Record MirrorOptions := mkMirrorOptions {
  mirror_signal : option AbortSignal;
  mirror_auth : option SignedEvent;
  mirror_onPayment : option (string → BlobDescriptor → PaymentRequest → M Token);
  mirror_onAuth : option (string → BlobDescriptor → M SignedEvent);
}.

(** Modelled from the spec: "the request asks the destination server to
    copy the blob from the location described by [knownDescriptor] (no body
    transfer from the caller)". *)
Definition mirrorRequest (server : string) (blob : BlobDescriptor)
    (opts : MirrorOptions) (headers : gmap string string) : Request :=
  mkRequest PUT (mkURL "/mirror" server) (mirror_signal opts) headers
    (SourceBody blob).

(** Modelled from the spec: the round of the credential.  "401
    authentication required, retry once with credential"; "if none is
    obtainable, fail with [MissingAuthHandler]".  The headers sent are kept
    for the round that may follow. *)
Definition mirrorOn401 (server : string) (blob : BlobDescriptor)
    (opts : MirrorOptions) (_res : Response)
    : M (Response * gmap string string) :=
  let* auth :=
    match mirror_auth opts with
    | Some auth => ret (Some auth)
    | None =>
        match mirror_onAuth opts with
        | Some onAuth => let* auth := onAuth server blob in ret (Some auth)
        | None => ret None
        end
    end in
  match auth with
  | None => throw (Error "Error" "Missing auth handler")
  | Some auth =>
      let headers : gmap string string :=
        {[ "Authorization" := encodeAuthorizationHeader auth ]} in
      let* res := fetch net (mirrorRequest server blob opts headers) in
      ret (res, headers)
  end.

(** Modelled from the spec: the round of the payment.  "402 payment
    required, parse payment request from response headers, retry once with
    token"; "if no resolver is configured, fail with
    [MissingPaymentHandler]".  The token goes next to the headers
    accumulated. *)
Definition mirrorOn402 (server : string) (blob : BlobDescriptor)
    (opts : MirrorOptions) (headers : gmap string string) (res : Response)
    : M Response :=
  match mirror_onPayment opts with
  | None => throw (Error "Error" "Missing payment handler")
  | Some onPayment =>
      do dynamicImport in
      let* request := readPaymentRequest (res_headers res) in
      let* token := onPayment server blob request in
      fetch net (mirrorRequest server blob opts
                   (<[ "X-Cashu" := getEncodedToken token ]> headers))
  end.

(** Modelled from the spec: [mirrorBlob] of [./mirror.js], which is not among
    the sources.  "identical challenge handling, but the request asks the
    destination server to copy the blob from the location described by
    [knownDescriptor] (no body transfer from the caller)".  The challenges
    are those of the spec: "a server that demands both auth and payment must
    be satisfied in sequence (auth first [...]); the design supports
    chaining multiple challenge-resolution rounds but must bound total
    rounds (at most one resolution per challenge kind)".  So: on a 401, one
    round for the credential; then, on a 402, one round for the payment,
    "plus any auth/payment headers accumulated"; then the status contract:
    403, or a 401 that persists, [Unauthorized]; anything else that is not
    a success, [HTTPError]. *)
Definition mirrorBlob (server : string) (blob : BlobDescriptor)
    (opts : MirrorOptions) : M (option BlobDescriptor) :=
  let* url := newURL "/mirror" server in
  let* first := fetch net (mirrorRequest server blob opts ∅) in
  let* second :=
    if decide (status first = 401) then mirrorOn401 server blob opts first
    else ret (first, ∅) in
  let* third :=
    if decide (status second.1 = 402)
    then mirrorOn402 server blob opts second.2 second.1
    else ret second.1 in
  if decide (status third = 401 ∨ status third = 403)
  then throw (Error "Error" "Unauthorized")
  else do handleErrorResponse third in json third.

End mirror.

(** ** [multiServerUpload] (upload.ts, lines 91-172) *)

Section multi.
Context `{Externals} (net : Network).

(** [UploadOptions & { onUpload, onError }]; the callbacks are the caller's. *)
Record MultiServerUploadOptions := mkMultiOptions {
  ms_signal : option AbortSignal;
  ms_auth : option SignedEvent;
  ms_onPayment : option (string → Blob → PaymentRequest → list Event → Result Token);
  ms_onAuth : option (string → Blob → list Event → Result SignedEvent);
  ms_onUpload : option (string → Blob → list Event → Result unit);
  ms_onError : option (string → Blob → Exn → list Event → Result unit);
}.

Definition setAuthEvents (auths : list SignedEvent) (w : World) : World :=
  mkWorld (trace w) auths (initialUpload w) (results w).
Definition setInitialUpload (d : option BlobDescriptor) (w : World) : World :=
  mkWorld (trace w) (authEvents w) d (results w).
Definition setResults (r : gmap string (option BlobDescriptor)) (w : World) : World :=
  mkWorld (trace w) (authEvents w) (initialUpload w) r.

(** [for (const auth of authEvents) if (await doseAuthMatchUpload(auth,
    server, blob)) return auth] *)
Fixpoint firstMatch (server : string) (blob : Blob) (auths : list SignedEvent)
    : option SignedEvent :=
  match auths with
  | [] => None
  | auth :: rest =>
      if doseAuthMatchUpload auth server blob then Some auth
      else firstMatch server blob rest
  end.

(** reuse auth events *)
Definition handleAuthRequest (opts : MultiServerUploadOptions) (blob : Blob)
    (server : string) : M SignedEvent :=
  let* cached := get authEvents in
  (* check if any existing auth events match *)
  match firstMatch server blob cached with
  | Some auth => ret auth
  | None =>
      (* create a new auth event *)
      match ms_onAuth opts with
      | Some onAuth =>
          let* auth := callOnAuth onAuth server blob in
          do modify (λ w, setAuthEvents (authEvents w ++ [auth]) w) in
          ret auth
      | None => throw (Error "Error" "Missing onAuth handler")
      end
  end.

(** handle payment requests for servers *)
Definition handlePaymentRequest {B} (opts : MultiServerUploadOptions)
    (blob : Blob) (server : string) (_b : B) (request : PaymentRequest)
    : M Token :=
  match ms_onPayment opts with
  | None => throw (Error "Error" "Missing payment handler")
  | Some onPayment => callOnPayment onPayment server blob request
  end.

Definition mirrorOptions (opts : MultiServerUploadOptions) (blob : Blob)
    : MirrorOptions :=
  mkMirrorOptions (ms_signal opts) None
    (Some (handlePaymentRequest opts blob))
    (Some (λ server _, handleAuthRequest opts blob server)).

Definition uploadOptions (opts : MultiServerUploadOptions) (blob : Blob)
    : ViaHandlers.UploadOptions :=
  ViaHandlers.mkOptions None None
    (Some (handlePaymentRequest opts blob))
    (Some (λ server _, handleAuthRequest opts blob server)).

(** The body of the loop, for one server. *)
Definition serverStep (opts : MultiServerUploadOptions) (blob : Blob)
    (server : string) : M unit :=
  try_catch
    (let* initial := get initialUpload in
     (* attempt to mirror the blob *)
     let* mirrored :=
       match initial with
       | Some source =>
           try_catch (mirrorBlob net server source (mirrorOptions opts blob))
             (λ _, ret None)
       | None => ret None
       end in
     let* metadata :=
       match mirrored with
       | Some _ => ret mirrored
       | None =>
           let* uploaded :=
             ViaHandlers.uploadBlob net server blob (uploadOptions opts blob) in
           (* save first upload *)
           let* initial := get initialUpload in
           do match initial with
              | Some _ => ret tt
              | None => modify (setInitialUpload uploaded)
              end in
           ret uploaded
       end in
     (* save result *)
     do modify (λ w, setResults (<[ server := metadata ]> (results w)) w) in
     (* finished upload to server *)
     match ms_onUpload opts with
     | Some onUpload => callOnUpload onUpload server blob
     | None => ret tt
     end)
    (λ error,
       (* failed to upload to server *)
       if instanceofError error then
         match ms_onError opts with
         | Some onError => callOnError onError server blob error
         | None => ret tt
         end
       else ret tt).

(** start server uploads *)
Fixpoint forEachServer (opts : MultiServerUploadOptions) (blob : Blob)
    (servers : list string) : M unit :=
  match servers with
  | [] => ret tt
  | server :: rest =>
      do serverStep opts blob server in forEachServer opts blob rest
  end.

Definition multiServerUpload (servers : list string) (blob : Blob)
    (opts : MultiServerUploadOptions)
    : M (gmap string (option BlobDescriptor)) :=
  do modify (λ w, mkWorld (trace w)
                    (match ms_auth opts with Some auth => [auth] | None => [] end)
                    None ∅) in
  do forEachServer opts blob servers in
  get results.

End multi.

(** ** Observing a run *)

Section observations.
Context `{Externals}.

(** What was appended to the trace between two states. *)
Definition appended (w w' : World) : list Event :=
  drop (length (trace w)) (trace w').

(** What a computation appends to the trace, and how it ends. *)
Definition events {A} (c : M A) (w : World) : list Event :=
  appended w (c w).2.
Definition outcome {A} (c : M A) (w : World) : Result A := (c w).1.

Definition count {A} (p : A → bool) (l : list A) : nat :=
  length (List.filter p l).

Definition isOnAuth (e : Event) : bool :=
  match e with EvOnAuth _ _ _ => true | _ => false end.
Definition isOnPayment (e : Event) : bool :=
  match e with EvOnPayment _ _ _ _ => true | _ => false end.

(** A [PUT]: the request that transfers the blob, or asks for the copy. *)
Definition isPut (e : Event) : bool :=
  match e with
  | EvFetch req _ => match method req with PUT => true | HEAD => false end
  | _ => false
  end.

Definition answered (code : Z) (e : Event) : bool :=
  match e with
  | EvFetch _ (Ok res) => bool_decide (status res = code)
  | _ => false
  end.

Definition carries (name : string) (e : Event) : bool :=
  match e with
  | EvFetch req _ => bool_decide (is_Some (headers req !! name))
  | _ => false
  end.

(** Credentials come into play only once a response with status [code] was
    seen: before that, the resolver is not called and no request carries an
    [Authorization] header. *)
Fixpoint credentialAfter (code : Z) (challenged : bool) (t : list Event) : bool :=
  match t with
  | [] => true
  | e :: t' =>
      (challenged || negb (isOnAuth e || carries "Authorization" e))
      && credentialAfter code (challenged || answered code e) t'
  end.

(** The header set of the check is found again on every [PUT]: the hash, and
    the type of the content when it is known. *)
Definition putCarriesCheckHeaders (blob : Blob) (e : Event) : bool :=
  match e with
  | EvFetch req _ =>
      match method req with
      | PUT =>
          bool_decide (headers req !! "X-SHA-256" = Some (getBlobSha256 blob))
          && (negb (truthy (getBlobType blob))
              || bool_decide (headers req !! "X-Content-Type" = getBlobType blob))
      | HEAD => true
      end
  | _ => true
  end.

End observations.

Section observations_of_one_upload.
Context `{Externals}.

(** What [opts?.auth || (await opts?.onAuth?.(server, blob))] comes to after
    the history [t]: nothing, a credential, or the resolver's failure. *)
Definition credential (auth : option SignedEvent)
    (onAuth : option (string → Blob → list Event → Result SignedEvent))
    (server : string) (blob : Blob) (t : list Event)
    : option (Result SignedEvent) :=
  match auth with
  | Some a => Some (Ok a)
  | None => (λ f, f server blob t) <$> onAuth
  end.

(** Every check of [server] is answered with [code]. *)
Definition checkedWith (net : Network) (server : string) (code : Z) : Prop :=
  ∀ t req, method req = HEAD → base (url req) = server →
    ∃ res, net t req = Ok res ∧ status res = code.

(** The request carries the credential [a]. *)
Definition authorizedBy (a : SignedEvent) (e : Event) : Prop :=
  match e with
  | EvFetch req _ =>
      headers req !! "Authorization" = Some (encodeAuthorizationHeader a)
  | _ => True
  end.

(** The headers the form with handlers puts on a [PUT], given what came
    just before it: the token, after the payment resolver has given one; the
    credential, after the credential resolver has given one, or [opts.auth]
    right after a check answered 403; nothing otherwise, that is, after a
    check that passed or after a [PUT] that was accepted. *)
Definition putHeadersViaHandlers (auth : option SignedEvent)
    (before : option Event) : gmap string string :=
  match before with
  | Some (EvOnPayment _ _ _ (Ok token)) =>
      {[ "X-Cashu" := getEncodedToken token ]}
  | Some (EvOnAuth _ _ (Ok a)) =>
      {[ "Authorization" := encodeAuthorizationHeader a ]}
  | Some (EvFetch req (Ok res)) =>
      match method req, auth with
      | HEAD, Some a =>
          if bool_decide (status res = 403)
          then {[ "Authorization" := encodeAuthorizationHeader a ]} else ∅
      | _, _ => ∅
      end
  | _ => ∅
  end.

(** The headers the form with a [switch] puts on a [PUT]: the hash, the
    credential [a] if there is one, and the token when the payment resolver
    has just given one. *)
Definition putHeadersViaSwitch (blob : Blob) (a : option SignedEvent)
    (before : option Event) : gmap string string :=
  match before with
  | Some (EvOnPayment _ _ _ (Ok token)) =>
      <[ "X-Cashu" := getEncodedToken token ]> (ViaSwitch.uploadHeaders blob a)
  | _ => ViaSwitch.uploadHeaders blob a
  end.

(** Every request of the trace carries the headers expected of it: the
    check, those of [onCheck]; a [PUT], those that [onPut] gives for the
    event before it. *)
Fixpoint requestsCarry (onCheck : gmap string string)
    (onPut : option Event → gmap string string)
    (before : option Event) (t : list Event) : Prop :=
  match t with
  | [] => True
  | e :: t' =>
      match e with
      | EvFetch req _ =>
          headers req = match method req with
                        | HEAD => onCheck
                        | PUT => onPut before
                        end
      | _ => True
      end
      ∧ requestsCarry onCheck onPut (Some e) t'
  end.

(** What a resolver has given is used at once: a token or a credential that
    was just given is followed by a request, a [PUT] when [put] is set. *)
Definition given (e : Event) : bool :=
  match e with
  | EvOnPayment _ _ _ (Ok _) | EvOnAuth _ _ (Ok _) => true
  | _ => false
  end.
Fixpoint givenIsSent (put : Event → bool) (t : list Event) : Prop :=
  match t with
  | [] => True
  | e :: t' =>
      (given e = true →
         match t' with
         | EvFetch req _ :: _ =>
             put e = true → method req = PUT
         | _ => False
         end)
      ∧ givenIsSent put t'
  end.

Definition granted (e : Event) : bool :=
  match e with EvOnAuth _ _ (Ok _) => true | _ => false end.

End observations_of_one_upload.

Section observations_of_a_run.
Context `{Externals}.

(** The servers the caller was notified about, in the order of the calls:
    by [onUpload], by [onError], by either. *)
Definition succeeded (t : list Event) : list string :=
  omap (λ e, match e with EvOnUpload server _ _ => Some server | _ => None end) t.
Definition failed (t : list Event) : list string :=
  omap (λ e, match e with EvOnError server _ _ _ => Some server | _ => None end) t.
Definition notified (t : list Event) : list string :=
  omap (λ e, match e with
             | EvOnUpload server _ _ | EvOnError server _ _ _ => Some server
             | _ => None
             end) t.

(** The servers that were sent a request. *)
Definition contacted (t : list Event) : list string :=
  omap (λ e, match e with EvFetch req _ => Some (base (url req)) | _ => None end) t.

(** The tokens the payment resolver handed out, with the server each was
    asked for, and the tokens that were sent, with the server each went to. *)
Definition minted (t : list Event) : list (string * string) :=
  omap (λ e, match e with
             | EvOnPayment server _ _ (Ok token) =>
                 Some (server, getEncodedToken token)
             | _ => None
             end) t.
Definition spent (t : list Event) : list (string * string) :=
  omap (λ e, match e with
             | EvFetch req _ =>
                 (λ payment, (base (url req), payment)) <$> headers req !! "X-Cashu"
             | _ => None
             end) t.

(** A request that may be answered with a demand for payment that the code
    takes up: the check of an upload, or a request for a copy that carries
    no token yet. *)
Definition unpaid (req : Request) : bool :=
  match method req with
  | HEAD => true
  | PUT => bool_decide (path (url req) = "/mirror")
           && bool_decide (headers req !! "X-Cashu" = None)
  end.

(** A 402 that can be taken up: it answers an unpaid request, the module of
    the tokens loads, and the headers of the answer hold a request that can
    be read. *)
Definition challenge (e : Event) : option (string * PaymentRequest) :=
  match e with
  | EvFetch req (Ok res) =>
      if unpaid req && bool_decide (status res = 402) then
        match importCashu, getPaymentRequestFromHeaders (res_headers res) with
        | None, inl request => Some (base (url req), request)
        | _, _ => None
        end
      else None
  | _ => None
  end.

(** The challenges of a run, each with its server and the request read, and
    the calls of the payment resolver, each with the server and the request
    it was given. *)
Definition challenged (t : list Event) : list (string * PaymentRequest) :=
  omap challenge t.
Definition paidFor (t : list Event) : list (string * PaymentRequest) :=
  omap (λ e, match e with
             | EvOnPayment server _ request _ => Some (server, request)
             | _ => None
             end) t.

(** What an upload made by the loop may do: requests to [/upload] of the
    server, without a signal, and calls of the resolvers. *)
Definition uploadEvent (server : string) (e : Event) : Prop :=
  match e with
  | EvFetch req _ => url req = mkURL "/upload" server ∧ signal req = None
  | EvOnAuth _ _ _ | EvOnPayment _ _ _ _ => True
  | EvOnUpload _ _ _ | EvOnError _ _ _ _ => False
  end.

(** What a mirror made by the loop may do: requests to [/mirror] of the
    server, with the signal, that name the source, and calls of the
    resolvers. *)
Definition mirrorEvent (server : string) (source : BlobDescriptor)
    (sig : option AbortSignal) (e : Event) : Prop :=
  match e with
  | EvFetch req _ =>
      url req = mkURL "/mirror" server ∧ signal req = sig
      ∧ body req = SourceBody source
  | EvOnAuth _ _ _ | EvOnPayment _ _ _ _ => True
  | EvOnUpload _ _ _ | EvOnError _ _ _ _ => False
  end.

(** Every request to [/mirror] carries the signal and names [source]. *)
Definition mirrorsFrom (source : BlobDescriptor) (sig : option AbortSignal)
    (e : Event) : Prop :=
  match e with
  | EvFetch req _ =>
      path (url req) = "/mirror" →
      signal req = sig ∧ body req = SourceBody source
  | _ => True
  end.

Definition isMirror (e : Event) : bool :=
  match e with
  | EvFetch req _ => bool_decide (path (url req) = "/mirror")
  | _ => false
  end.

Definition isUpload (e : Event) : bool :=
  match e with
  | EvFetch req _ => bool_decide (path (url req) = "/upload")
  | _ => false
  end.

(** What the caller is told at the end of the step for [server], when the
    attempt ended with [r]: of a success, by [onUpload]; of the failure [e]
    of the attempt, by [onError]; or, when [onUpload] itself throws, of that
    instead. Nothing else is ever reported. *)
Definition told {A} (server : string) (blob : Blob) (r : Result A)
    (t : list Event) : Prop :=
  match r with
  | Ok _ =>
      t = []
      ∨ (∃ res, t = [EvOnUpload server blob res])
      ∨ (∃ e res, t = [EvOnUpload server blob (Throw e);
                       EvOnError server blob e res])
  | Throw e => t = [] ∨ ∃ res, t = [EvOnError server blob e res]
  end.

(** Whatever the outside throws is an [Error]. *)
Definition onlyErrors (net : Network)
    (onPayment : option (string → Blob → PaymentRequest → list Event → Result Token))
    (onAuth : option (string → Blob → list Event → Result SignedEvent)) : Prop :=
  (∀ t req e, net t req = Throw e → instanceofError e = true)
  ∧ (∀ f s b r t e, onPayment = Some f → f s b r t = Throw e →
       instanceofError e = true)
  ∧ (∀ f s b t e, onAuth = Some f → f s b t = Throw e →
       instanceofError e = true).

End observations_of_a_run.

Section the_start_of_a_run.
Context `{Externals}.

(** The state in which the loop of [multiServerUpload] starts: no first
    upload, no result, and [opts.auth], if any, as the only credential. *)
Definition started (opts : MultiServerUploadOptions) (w : World) : World :=
  mkWorld (trace w)
    (match ms_auth opts with Some auth => [auth] | None => [] end) None ∅.

End the_start_of_a_run.

Section observations_of_the_signal.
Context `{Externals}.

(** A request to [/mirror] carries the signal [sig]. *)
Definition signalled (sig : option AbortSignal) (e : Event) : Prop :=
  match e with
  | EvFetch req _ => path (url req) = "/mirror" → signal req = sig
  | _ => True
  end.

(** An answer that is a rejection: no connection, or an abort. *)
Definition rejected (e : Event) : bool :=
  match e with EvFetch _ (Throw _) => true | _ => false end.

End observations_of_the_signal.

(** ** Observing the steps of a run *)

Section observations_of_the_steps.
Context `{Externals} (net : Network).

(** What the step for one server tries (lines 137-158): the mirror, when
    there is a first descriptor, and the upload when the mirror fails or
    gives nothing. *)
Definition attempt (opts : MultiServerUploadOptions) (blob : Blob)
    (server : string) : M (option BlobDescriptor) :=
  let* initial := get initialUpload in
  let* mirrored :=
    match initial with
    | Some source =>
        try_catch (mirrorBlob net server source (mirrorOptions opts blob))
          (λ _, ret None)
    | None => ret None
    end in
  match mirrored with
  | Some _ => ret mirrored
  | None =>
      let* uploaded :=
        ViaHandlers.uploadBlob net server blob (uploadOptions opts blob) in
      let* initial := get initialUpload in
      do match initial with
         | Some _ => ret tt
         | None => modify (setInitialUpload uploaded)
         end in
      ret uploaded
  end.

(** The steps a run gets to, each with the state it starts in: one for each
    server, in the order of the list, until a step throws. *)
Fixpoint runSteps (opts : MultiServerUploadOptions) (blob : Blob)
    (servers : list string) (w : World) : list (string * World) :=
  match servers with
  | [] => []
  | server :: rest =>
      (server, w) ::
      match serverStep net opts blob server w with
      | (Ok _, w') => runSteps opts blob rest w'
      | (Throw _, _) => []
      end
  end.

Definition stepEvents (opts : MultiServerUploadOptions) (blob : Blob)
    (step : string * World) : list Event :=
  events (serverStep net opts blob step.1) step.2.

(** How the attempt of a step ends. *)
Definition attemptOutcome (opts : MultiServerUploadOptions) (blob : Blob)
    (step : string * World) : Result (option BlobDescriptor) :=
  outcome (attempt opts blob step.1) step.2.

(** The callbacks [onUpload] and [onError], when the caller has given them,
    return. *)
Definition callbacksReturn (opts : MultiServerUploadOptions) : Prop :=
  (∀ f, ms_onUpload opts = Some f → ∀ s b t, f s b t = Ok tt)
  ∧ (∀ f, ms_onError opts = Some f → ∀ s b e t, f s b e t = Ok tt).

(** The failures [onError] was called with, each with its server. *)
Definition reported (t : list Event) : list (string * Exn) :=
  omap (λ e, match e with
             | EvOnError server _ error _ => Some (server, error)
             | _ => None
             end) t.

(** The servers whose attempt gave a result, and the failures of the others
    that are [Error]s. *)
Definition successes (outcomes : list (string * Result (option BlobDescriptor)))
    : list string :=
  omap (λ o, match o.2 with Ok _ => Some o.1 | Throw _ => None end) outcomes.
Definition failures (outcomes : list (string * Result (option BlobDescriptor)))
    : list (string * Exn) :=
  omap (λ o, match o.2 with
             | Throw e => if instanceofError e then Some (o.1, e) else None
             | Ok _ => None
             end) outcomes.

End observations_of_the_steps.

(** ** Observing the requests of one upload *)

Section observations_of_the_requests.
Context `{Externals}.

Definition isFetch (e : Event) : bool :=
  match e with EvFetch _ _ => true | _ => false end.

(** A request of an upload of [blob] to [server]: it goes to [/upload] of
    the server with the caller's signal; the check has no body, a [PUT] has
    the blob. *)
Definition uploadRequest (server : string) (blob : Blob)
    (sig : option AbortSignal) (e : Event) : Prop :=
  match e with
  | EvFetch req _ =>
      url req = mkURL "/upload" server ∧ signal req = sig
      ∧ body req = match method req with
                   | HEAD => NoBody
                   | PUT => BlobBody blob
                   end
  | _ => True
  end.

(** What the outside rejected with, if the event is a rejection. *)
Definition thrownBy (e : Event) : option Exn :=
  match e with
  | EvFetch _ (Throw x) | EvOnAuth _ _ (Throw x)
  | EvOnPayment _ _ _ (Throw x) => Some x
  | _ => None
  end.

(** What [handleErrorResponse(res)] followed by [res.json()] comes to. *)
Definition fromResponse (res : Response) : Result (option BlobDescriptor) :=
  if bool_decide (200 ≤ status res ≤ 299) then
    match res_body res with
    | Json v => Ok v
    | Text _ => Throw (Error "SyntaxError" "Unexpected token")
    end
  else Throw (HTTPError (status res) (res_body res)).

End observations_of_the_requests.

(** ** Observing the credentials of a run *)

Section observations_of_the_credentials.
Context `{Externals}.

(** What an event is about: the server a request goes to, the server and
    the blob a callback is called with. *)
Definition about (server : string) (blob : Blob) (e : Event) : Prop :=
  match e with
  | EvFetch req _ => base (url req) = server
  | EvOnAuth s b _ | EvOnPayment s b _ _ | EvOnUpload s b _
  | EvOnError s b _ _ => s = server ∧ b = blob
  end.

Definition within (servers : list string) (blob : Blob) (e : Event) : Prop :=
  ∃ server, server ∈ servers ∧ about server blob e.

(** The credentials the resolver granted, in the order of the calls. *)
Definition grantedCredentials (t : list Event) : list SignedEvent :=
  omap (λ e, match e with EvOnAuth _ _ (Ok a) => Some a | _ => None end) t.

(** A credential goes only where it belongs: an [Authorization] header sent
    to a server holds a credential that matches this server and the blob,
    or one the resolver has granted for this very server before ([fresh]
    lists those, with the server each was granted for). *)
Fixpoint sentWhereItBelongs (blob : Blob) (fresh : list (string * SignedEvent))
    (t : list Event) : Prop :=
  match t with
  | [] => True
  | EvFetch req _ :: t' =>
      match headers req !! "Authorization" with
      | Some h =>
          ∃ a, h = encodeAuthorizationHeader a
               ∧ (doseAuthMatchUpload a (base (url req)) blob = true
                  ∨ (base (url req), a) ∈ fresh)
      | None => True
      end
      ∧ sentWhereItBelongs blob fresh t'
  | EvOnAuth s _ (Ok a) :: t' => sentWhereItBelongs blob ((s, a) :: fresh) t'
  | _ :: t' => sentWhereItBelongs blob fresh t'
  end.

(** The resolver is asked only when it must be: at each of its calls, no
    credential of the cache (those of [cache], then those granted since)
    matches the server it is called for. *)
Fixpoint askedWhenNeeded (blob : Blob) (cache : list SignedEvent)
    (t : list Event) : Prop :=
  match t with
  | [] => True
  | EvOnAuth s _ r :: t' =>
      Forall (λ a, doseAuthMatchUpload a s blob = false) cache
      ∧ askedWhenNeeded blob
          (cache ++ match r with Ok a => [a] | Throw _ => [] end) t'
  | _ :: t' => askedWhenNeeded blob cache t'
  end.

(** What a run cannot do without the caller's resolvers: without
    [onPayment], pay; without [onAuth] and with no credential at hand,
    authorize. *)
Definition withoutResolvers (opts : MultiServerUploadOptions)
    (cache : list SignedEvent) (t : list Event) : Prop :=
  (ms_onPayment opts = None →
     count isOnPayment t = 0%nat ∧ count (carries "X-Cashu") t = 0%nat)
  ∧ (ms_onAuth opts = None → cache = [] →
       count isOnAuth t = 0%nat ∧ count (carries "Authorization") t = 0%nat).

End observations_of_the_credentials.


(** ** [listBlobs]

    The listing of the blobs of a public key has a world of its own: its
    requests are [GET]s of a URL with a query, it answers with a list of
    descriptors, and its resolvers take the server alone. *)

(** The numbers of JavaScript, as far as the listing looks at them: whether
    a number is truthy (zero and [NaN] are not) and how [String] prints it. *)
Class Numbers := {
  Number : Type;
  isTruthy : Number → bool;
  numberToString : Number → string;
}.

Module ListBlobs.
Section defs.
Context `{Externals} `{Numbers}.

(** [new URL("/list/" + pubkey, server)], and its [searchParams]. *)
Record URL := mkURL {
  pathname : string;
  base : string;
  searchParams : list (string * string);
}.

(** [fetch(url, { signal, headers })]: the method is the default one. *)
Record Request := mkRequest {
  url : URL;
  signal : option AbortSignal;
  headers : gmap string string;
}.

(** What [list.json()] finds: a list of descriptors, or a body that is not
    JSON. *)
Inductive Body :=
| Json (value : list BlobDescriptor)
| Text (raw : string).

Record Response := mkResponse {
  status : Z;
  res_headers : gmap string string;
  res_body : Body;
}.

Inductive Exn :=
| Error (name message : string)
| HTTPError (code : Z) (content : Body)
| NonError (value : string).

Inductive Result (A : Type) :=
| Ok (a : A)
| Throw (e : Exn).
Global Arguments Ok {A} a.
Global Arguments Throw {A} e.

Inductive Event :=
| EvFetch (req : Request) (res : Result Response)
| EvOnAuth (server : string) (res : Result SignedEvent)
| EvOnPayment (server : string) (request : PaymentRequest) (res : Result Token).

(** The state is the history alone. *)
Definition M (A : Type) : Type := list Event → Result A * list Event.

Definition ret {A} (a : A) : M A := λ t, (Ok a, t).
Definition throw {A} (e : Exn) : M A := λ t, (Throw e, t).
Definition bind {A B} (c : M A) (k : A → M B) : M B :=
  λ t, match c t with
       | (Ok a, t') => k a t'
       | (Throw e, t') => (Throw e, t')
       end.

Definition Network := list Event → Request → Result Response.

Definition fetch (net : Network) (req : Request) : M Response :=
  λ t, let r := net t req in (r, t ++ [EvFetch req r]).

Definition callOnAuth (f : string → list Event → Result SignedEvent)
    (server : string) : M SignedEvent :=
  λ t, let r := f server t in (r, t ++ [EvOnAuth server r]).

Definition callOnPayment
    (f : string → PaymentRequest → list Event → Result Token)
    (server : string) (request : PaymentRequest) : M Token :=
  λ t, let r := f server request t in (r, t ++ [EvOnPayment server request r]).

(** [new URL(path, server)]: a [TypeError] when the server is not a URL. *)
Definition newURL (url : URL) : M URL :=
  if canParse (base url) then ret url
  else throw (Error "TypeError" "Invalid URL").

(** [const { getEncodedToken } = await import("@cashu/cashu-ts")] *)
Definition dynamicImport : M unit :=
  match importCashu with
  | None => ret tt
  | Some (name, message) => throw (Error name message)
  end.

(** [getPaymentRequestFromHeaders(list.headers)], which throws when it
    finds no request to read. *)
Definition readPaymentRequest (headers : gmap string string)
    : M PaymentRequest :=
  match getPaymentRequestFromHeaders headers with
  | inl request => ret request
  | inr (name, message) => throw (Error name message)
  end.

Definition ok (res : Response) : bool :=
  bool_decide (200 ≤ status res ≤ 299).

(** Modelled from the spec: [HTTPError.handleErrorResponse] of [../error.js],
    which is not among the sources.  "any other non-success status →
    terminal [HTTPError] carrying the status and response body". *)
Definition handleErrorResponse (res : Response) : M unit :=
  if ok res then ret tt else throw (HTTPError (status res) (res_body res)).

Definition json (res : Response) : M (list BlobDescriptor) :=
  match res_body res with
  | Json v => ret v
  | Text _ => throw (Error "SyntaxError" "Unexpected token")
  end.

Record ListOptions := mkOptions {
  opts_signal : option AbortSignal;
  opts_auth : option SignedEvent;
  opts_since : option Number;
  opts_until : option Number;
  opts_onPayment : option (string → PaymentRequest → list Event → Result Token);
  opts_onAuth : option (string → list Event → Result SignedEvent);
}.

(** [if (opts?.since) url.searchParams.append("since", String(opts.since))]:
    nothing is appended for [undefined] or for a number that is falsy. *)
Definition appendParam (name : string) (value : option Number)
    (params : list (string * string)) : list (string * string) :=
  match value with
  | Some n => if isTruthy n then params ++ [(name, numberToString n)]
              else params
  | None => params
  end.

Definition listURL (server pubkey : string) (opts : ListOptions) : URL :=
  mkURL ("/list/" +:+ pubkey) server
    (appendParam "until" (opts_until opts)
       (appendParam "since" (opts_since opts) [])).

Definition listBlobs (net : Network) (server pubkey : string)
    (opts : ListOptions) : M (list BlobDescriptor) :=
  bind (newURL (listURL server pubkey opts)) (λ url,
  bind (fetch net (mkRequest url (opts_signal opts) ∅)) (λ list,
  (* handle auth and payments *)
  bind
    (if decide (status list = 401) then
       bind
         match opts_auth opts with
         | Some auth => ret (Some auth)
         | None =>
             match opts_onAuth opts with
             | Some onAuth =>
                 bind (callOnAuth onAuth server) (λ auth, ret (Some auth))
             | None => ret None
             end
         end (λ auth,
       match auth with
       | None => throw (Error "Error" "Missing auth handler")
       | Some auth =>
           (* Try list with auth *)
           fetch net
             (mkRequest url (opts_signal opts)
                {[ "Authorization" := encodeAuthorizationHeader auth ]})
       end)
     else if decide (status list = 402) then
       match opts_onPayment opts with
       | None => throw (Error "Error" "Missing payment handler")
       | Some onPayment =>
           bind dynamicImport (λ _,
           bind (readPaymentRequest (res_headers list)) (λ request,
           bind (callOnPayment onPayment server request) (λ token,
           let payment := getEncodedToken token in
           (* Try list with payment *)
           fetch net
             (mkRequest url (opts_signal opts) {[ "X-Cashu" := payment ]}))))
       end
     else ret list) (λ list,
  (* handle errors *)
  bind (handleErrorResponse list) (λ _,
  (* return blob descriptor *)
  json list)))).

(** What a computation appends to the history, and how it ends. *)
Definition events {A} (c : M A) (t : list Event) : list Event :=
  drop (length t) (c t).2.
Definition outcome {A} (c : M A) (t : list Event) : Result A := (c t).1.

Definition isFetch (e : Event) : bool :=
  match e with EvFetch _ _ => true | _ => false end.
Definition isCall (e : Event) : bool :=
  match e with EvFetch _ _ => false | _ => true end.

(** What [handleErrorResponse(res)] followed by [res.json()] comes to. *)
Definition fromResponse (res : Response) : Result (list BlobDescriptor) :=
  if ok res then
    match res_body res with
    | Json v => Ok v
    | Text _ => Throw (Error "SyntaxError" "Unexpected token")
    end
  else Throw (HTTPError (status res) (res_body res)).

(** A request of a listing: the [GET] of [target] with the signal [sig],
    with no header or with one, a credential or a payment, never both. *)
Definition listRequest (target : URL) (sig : option AbortSignal) (e : Event)
    : Prop :=
  match e with
  | EvFetch req _ =>
      url req = target ∧ signal req = sig
      ∧ (headers req = ∅
         ∨ (∃ a, headers req =
                 {[ "Authorization" := encodeAuthorizationHeader a ]})
         ∨ (∃ token, headers req = {[ "X-Cashu" := getEncodedToken token ]}))
  | _ => True
  end.

End defs.
End ListBlobs.


(** ** A concrete setting, for the examples

    Blobs are their content, a descriptor is the address it was stored at, a
    credential names the server it is good for ([*] for all of them). Any
    name but the empty one is the address of a server, and a request for a
    payment is read from the header [X-Cashu] of a 402. *)

Definition demo : Externals := {|
  Blob := string;
  BlobDescriptor := string;
  SignedEvent := string;
  Token := string;
  PaymentRequest := string;
  getBlobSha256 b := "sha256-of-" +:+ b;
  getBlobSize b := N.of_nat (String.length b);
  getBlobType _ := Some "text/plain";
  canParse server := negb (String.eqb server "");
  importCashu := None;
  getPaymentRequestFromHeaders h :=
    match h !! "X-Cashu" with
    | Some request => inl request
    | None => inr ("Error", "Missing cashu header")
    end;
  getEncodedToken t := "cashu" +:+ t;
  encodeAuthorizationHeader a := "Nostr " +:+ a;
  doseAuthMatchUpload a server _ := bool_decide (a = "*" ∨ a = server);
|}.

Section scenarios.
#[local] Existing Instance demo.

Definition emptyWorld : World := mkWorld [] [] None ∅.

(** An answer; a 402 comes with the request for the payment. *)
Definition respond (code : Z) (value : option string) : Result Response :=
  Ok (mkResponse code
        (if bool_decide (code = 402) then {[ "X-Cashu" := "creq" ]} else ∅)
        (Json value)).

(** The descriptor a server answers a successful [PUT] with. *)
Definition stored (req : Request) : option string :=
  Some ("https://" +:+ base (url req) +:+ "/abc").

(** A server that answers every check with [code] and accepts every [PUT]. *)
Definition checkAnswers (code : Z) : Network := λ _ req,
  match method req with
  | HEAD => respond code None
  | PUT => respond 200 (stored req)
  end.

Definition signsFor (who : string) : string → Blob → list Event → Result SignedEvent :=
  λ _ _ _, Ok who.

Definition pays : string → Blob → PaymentRequest → list Event → Result Token :=
  λ server _ _ _, Ok ("-for-" +:+ server).

(** A resolver that gives up, and rejects with a string. *)
Definition declines : string → Blob → list Event → Result SignedEvent :=
  λ _ _ _, Throw (NonError "cancelled").

Definition noted : string → Blob → list Event → Result unit :=
  λ _ _ _, Ok tt.
Definition notedError : string → Blob → Exn → list Event → Result unit :=
  λ _ _ _ _, Ok tt.

(** A server that accepts its first upload, a check and a [PUT], and answers
    500 from then on. *)
Definition failsAfterFirst : Network := λ t req,
  if bool_decide (length t < 2)%nat then respond 200 (stored req)
  else respond 500 None.

(** A network on which the signal has fired: a request that carries it is
    rejected; the others are accepted. *)
Definition aborted : Network := λ _ req,
  match signal req with
  | Some _ => Throw (Error "AbortError" "The operation was aborted")
  | None => respond 200 (stored req)
  end.

(** Servers that want to be paid: 402 to every request without a token. *)
Definition paid : Network := λ _ req,
  match headers req !! "X-Cashu" with
  | Some _ => respond 200 (stored req)
  | None =>
      match method req with
      | HEAD => respond 402 None
      | PUT => if bool_decide (path (url req) = "/mirror") then respond 402 None
               else respond 200 (stored req)
      end
  end.

(** A server that wants to be paid and does not say what: its 402 comes
    without a request for a payment. *)
Definition unreadable : Network := λ _ _,
  Ok (mkResponse 402 ∅ (Json None)).

(** A server that is never satisfied: 402 to every request, token or not. *)
Definition insatiable : Network := λ _ _, respond 402 None.

(** A caller whose [onError] throws. *)
Definition complains : string → Blob → Exn → list Event → Result unit :=
  λ _ _ _ _, Throw (Error "Error" "told of a failure").

Definition carriesSignal (sig : option AbortSignal) (e : Event) : bool :=
  match e with
  | EvFetch req _ => bool_decide (signal req = sig)
  | _ => true
  end.

(** A caller of [uploadBlob] that can sign for any server and pay. *)
Definition viaSwitch : ViaSwitch.UploadOptions :=
  ViaSwitch.callerOptions None None (Some pays) (Some (signsFor "*")).
Definition viaHandlers : ViaHandlers.UploadOptions :=
  ViaHandlers.callerOptions None None (Some pays) (Some (signsFor "*")).

(** A caller of [multiServerUpload] that is told of every outcome. *)
Definition toldOfAll (sig : option AbortSignal)
    (onAuth : string → Blob → list Event → Result SignedEvent)
    : MultiServerUploadOptions :=
  mkMultiOptions sig None (Some pays) (Some onAuth) (Some noted)
    (Some notedError).

End scenarios.

(** ** A concrete setting for the listing *)

(** Timestamps that are integers of a few digits, printed in decimal. *)
Definition timestamps : Numbers := {|
  Number := Z;
  isTruthy n := negb (Z.eqb n 0);
  numberToString n := pretty n;
|}.

Section scenarios_of_a_listing.
#[local] Existing Instance demo.
#[local] Existing Instance timestamps.

(** A server that answers the request without a header with [code], and
    gives the list to a request that carries one. *)
Definition listing (code : Z) : ListBlobs.Network := λ _ req,
  match ListBlobs.headers req !! "Authorization",
        ListBlobs.headers req !! "X-Cashu" with
  | None, None =>
      ListBlobs.Ok (ListBlobs.mkResponse code
                      (if bool_decide (code = 402)
                       then {[ "X-Cashu" := "creq" ]} else ∅)
                      (ListBlobs.Json []))
  | _, _ =>
      ListBlobs.Ok (ListBlobs.mkResponse 200 ∅ (ListBlobs.Json ["https://A/abc"]))
  end.

(** A caller of [listBlobs] that can sign and pay. *)
Definition lister : ListBlobs.ListOptions :=
  ListBlobs.mkOptions None None (Some 0) None
    (Some (λ server _ _, ListBlobs.Ok ("-for-" +:+ server)))
    (Some (λ _ _, ListBlobs.Ok "*")).

End scenarios_of_a_listing.


(** * Properties *)

(** ** Running a computation by hand *)

Ltac unfold_m :=
  cbv beta delta [bind ret throw try_catch lift get modify emit fetch
    fetchWithHandlers callOnAuth callOnPayment callOnUpload callOnError
    handleErrorResponse json events appended outcome
    newURL dynamicImport readPaymentRequest
    fmap option_fmap option_map].

Ltac red_m :=
  cbn [trace authEvents initialUpload results fst snd status res_headers
       res_body method url signal headers body path base
       app length List.filter count isOnAuth isOnPayment isPut answered
       carries granted credentialAfter last fmap option_fmap option_map credential
       ViaHandlers.opts_signal ViaHandlers.opts_auth ViaHandlers.opts_onPayment
       ViaHandlers.opts_onAuth ViaSwitch.opts_signal ViaSwitch.opts_auth
       ViaSwitch.opts_onPayment ViaSwitch.opts_onAuth
       ms_signal ms_auth ms_onPayment ms_onAuth ms_onUpload ms_onError
       mirror_signal mirror_auth mirror_onPayment mirror_onAuth
       setAuthEvents setInitialUpload setResults
       omap list_omap succeeded failed notified contacted minted spent
       challenged paidFor challenge unpaid isMirror isUpload reported
       orb andb negb].

Section basics.
Context `{Externals}.

(** What was appended to a trace is what is found past its length. *)
Lemma drop_trace (t seg : list Event) : drop (length t) (t ++ seg) = seg.
Proof. by rewrite drop_app_length. Qed.

Lemma drop_trace_nil (t : list Event) : drop (length t) t = [].
Proof. by rewrite drop_all. Qed.

Lemma count_app {A} (p : A → bool) (l k : list A) :
  count p (l ++ k) = (count p l + count p k)%nat.
Proof. unfold count. by rewrite List.filter_app, length_app. Qed.

(** A table of two handlers, looked up at a status that is not known. *)
Lemma handlers_lookup {V} (a b : Z) (ha hb : V) (s : Z) :
  (<[ a := ha ]> (<[ b := hb ]> (∅ : gmap Z V))) !! s =
  if decide (s = a) then Some ha else if decide (s = b) then Some hb else None.
Proof.
  repeat case_decide; simplify_map_eq; done.
Qed.

(** The headers of the check, in either form. *)
Lemma checkHeaders_no_credential blob :
  ViaHandlers.checkHeaders blob !! "Authorization" = None.
Proof.
  unfold ViaHandlers.checkHeaders. case_match; by simplify_map_eq.
Qed.

Lemma switch_checkHeaders_other blob h k :
  k ≠ "X-Content-Length" → k ≠ "X-Content-Type" →
  ViaSwitch.checkHeaders blob h !! k = h !! k.
Proof.
  intros. unfold ViaSwitch.checkHeaders. case_match; by simplify_map_eq.
Qed.

Lemma switch_checkHeaders_length blob h :
  ViaSwitch.checkHeaders blob h !! "X-Content-Length"
  = Some (pretty (getBlobSize blob)).
Proof.
  unfold ViaSwitch.checkHeaders. case_match; by simplify_map_eq.
Qed.

Lemma checkHeaders_no_payment blob :
  ViaHandlers.checkHeaders blob !! "X-Cashu" = None.
Proof.
  unfold ViaHandlers.checkHeaders. case_match; by simplify_map_eq.
Qed.

Lemma header_set_not_empty (k v : string) :
  bool_decide (({[ k := v ]} : gmap string string) = ∅) = false.
Proof.
  apply bool_decide_eq_false_2. apply map_non_empty_singleton.
Qed.

Lemma uploadHeaders_lookup blob auth k :
  k ≠ "Authorization" →
  ViaSwitch.uploadHeaders blob auth !! k
  = if decide (k = "X-SHA-256") then Some (getBlobSha256 blob) else None.
Proof.
  intros. unfold ViaSwitch.uploadHeaders.
  destruct auth; case_decide; by simplify_map_eq.
Qed.

End basics.

(** Bring what was appended to the trace into the shape of a list. *)
Ltac tidy :=
  red_m; rewrite <- ?app_assoc; rewrite ?drop_trace, ?drop_trace_nil; red_m.

(** One step: case analysis on what the outside answered, or on a test. *)
Ltac step :=
  match goal with
  | |- context [bool_decide ?P] =>
      destruct (bool_decide_reflect P); red_m; try lia
  | |- context [decide ?P] => destruct (decide P); red_m; try lia
  | |- context [match ?x with _ => _ end] =>
      lazymatch x with
      | context [match _ with _ => _ end] => fail
      | _ => destruct x eqn:?
      end; red_m
  end.

(** Use what is known of the server. *)
Ltac step_known :=
  match goal with
  | Hu : canParse ?s = true |- context [canParse ?s] => rewrite Hu; red_m
  | Hu : canParse ?s = false |- context [canParse ?s] => rewrite Hu; red_m
  | Hi : importCashu = _ |- context [importCashu] => rewrite Hi; red_m
  end.

(** Use what is known of the answers to the checks. *)
Ltac step_checked :=
  match goal with
  | Hc : checkedWith ?net _ _ |- context [?net ?t ?req] =>
      let res := fresh "res" in
      let E := fresh "E" in
      destruct (Hc t req eq_refl eq_refl) as (res & E & ?);
      rewrite E; red_m
  end.

(** Run the computation of the goal to its end, along every path. *)
Ltac exec :=
  unfold_m; unfold ok; red_m; rewrite ?handlers_lookup;
  repeat (first [step_known | step_checked | step]; rewrite ?handlers_lookup);
  tidy.

(** Run the computation [t] where the goal mentions it, once for all of its
    occurrences. *)
Ltac hide t :=
  unfold events, appended, outcome; pattern t;
  lazymatch goal with
  | |- ?Q _ => let q := fresh "Post" in set (q := Q)
  end.

Ltac unhide :=
  lazymatch goal with
  | q := _ |- _ => subst q; cbv beta
  end.

Ltac unfold_upload :=
  unfold ViaHandlers.uploadBlob, ViaHandlers.on402, ViaHandlers.on403,
    ViaHandlers.callerOptions, ViaSwitch.uploadBlob, ViaSwitch.resolveAuth,
    ViaSwitch.callerOptions.

(** Use in the goal what the outside is known to have answered. *)
Ltac recall :=
  repeat match goal with
  | E : ?t = Ok _ |- context [?t] => rewrite E
  | E : ?t = Throw _ |- context [?t] => rewrite E
  end.

(** Run the upload of the goal, in either form. *)
Ltac run_upload_of w :=
  unfold events, appended, outcome;
  match goal with
  | |- context [?f w] =>
      lazymatch f with
      | ViaHandlers.uploadBlob _ _ _ _ => hide (f w)
      | ViaSwitch.uploadBlob _ _ _ _ => hide (f w)
      end
  end;
  unfold_upload; exec; unhide; tidy; recall.

(** What is known of an answer, used in a hypothesis. *)
Ltac known Ha :=
  cbn [credential fmap option_fmap option_map] in Ha;
  repeat match goal with
  | E : ?t = _ |- _ =>
      tryif constr_eq E Ha then fail else
      lazymatch type of Ha with context [t] => rewrite E in Ha end
  end;
  simplify_eq.

Ltac unfold_run :=
  unfold ViaHandlers.uploadBlob, ViaHandlers.on402, ViaHandlers.on403,
    mirrorBlob, mirrorOn401, mirrorOn402, mirrorRequest, uploadOptions,
    mirrorOptions,
    handleAuthRequest, handlePaymentRequest.

(** Look a header up in a header set built by the code. *)
Ltac lookups :=
  rewrite ?checkHeaders_no_payment, ?checkHeaders_no_credential;
  rewrite ?switch_checkHeaders_other by done;
  rewrite ?lookup_insert_ne by done;
  rewrite ?lookup_insert_eq, ?lookup_singleton_eq, ?lookup_empty;
  rewrite ?lookup_singleton_ne by done.

(** Prove a property of every event of a trace that is a literal list. *)
Ltac each_event :=
  repeat first [apply Forall_nil_2 | apply Forall_cons_2]; red_m.

(** Decide the tests that are left by cases. *)
Ltac bools :=
  repeat match goal with
  | |- context [bool_decide ?P] => destruct (bool_decide_reflect P)
  end; red_m; try done; try congruence.

(** Tests on literals. *)
Ltac literals :=
  repeat (match goal with
  | |- context [bool_decide ({[ ?k := ?v ]} = ∅)] =>
      rewrite (header_set_not_empty k v)
  | |- context [bool_decide (?a = ?b)] =>
      first [ rewrite (bool_decide_eq_true_2 (a = b)) by (done || lia)
            | rewrite (bool_decide_eq_false_2 (a = b)) by (done || lia) ]
  end; red_m).

(** ** One upload *)

(** Read a result off a response whose status and body are known. *)
Ltac responses :=
  unfold fromResponse, ok;
  repeat match goal with
  | E : res_body ?r = _ |- context [res_body ?r] => rewrite E
  | |- context [bool_decide ?P] =>
      first [ rewrite (bool_decide_eq_true_2 P) by (done || lia)
            | rewrite (bool_decide_eq_false_2 P) by (done || lia) ]
  end.

(** The run of the goal is one of the runs listed. *)
Ltac shape := repeat eexists; responses; try done; try lia.
Ltac pick :=
  first [ solve [shape] | left; pick | right; pick
        | lazymatch goal with |- ∃ _, _ ∨ _ => eexists; pick end ].

Ltac red_h :=
  cbn [requestsCarry givenIsSent given putHeadersViaHandlers
       putHeadersViaSwitch]; red_m.

Section one_upload.
Context `{Externals} (net : Network).

(** C1 (as amended). A check answered 401 is never followed by a retry: the
    check is the last thing that happens. The form with the [switch] has
    resolved the credential before the check, and fails at once, with
    "Unable to authenticate" when a credential was attached, with "Missing
    auth handler" when there was none. The form with handlers has no handler
    for a 401: it calls no resolver and fails with the [HTTPError]. *)
Theorem unauthenticated_check_is_terminal server blob signal auth onPayment
    onAuth w :
  canParse server = true →
  checkedWith net server 401 →
  let url := mkURL "/upload" server in
  (let c := ViaSwitch.uploadBlob net server blob
              (ViaSwitch.callerOptions signal auth onPayment onAuth) in
   match credential auth onAuth server blob (trace w) with
   | Some (Throw e) =>
       events c w = [EvOnAuth server blob (Throw e)] ∧ outcome c w = Throw e
   | cred =>
       let a := match cred with Some (Ok a) => Some a | _ => None end in
       let before :=
         match auth, cred with
         | None, Some r => [EvOnAuth server blob r]
         | _, _ => []
         end in
       ∃ res,
         status res = 401
         ∧ events c w =
             before ++
             [EvFetch (mkRequest HEAD url signal
                         (ViaSwitch.checkHeaders blob
                            (ViaSwitch.uploadHeaders blob a)) NoBody) (Ok res)]
         ∧ outcome c w =
             Throw (Error "Error" match a with
                                  | Some _ => "Unable to authenticate"
                                  | None => "Missing auth handler"
                                  end)
   end)
  ∧ (let c := ViaHandlers.uploadBlob net server blob
                (ViaHandlers.callerOptions signal auth onPayment onAuth) in
     ∃ res,
       status res = 401
       ∧ events c w =
           [EvFetch (mkRequest HEAD url signal (ViaHandlers.checkHeaders blob)
                       NoBody) (Ok res)]
       ∧ outcome c w = Throw (HTTPError 401 (res_body res))).
Proof.
  intros Hu Hc url; subst url. split.
  - intros c; subst c. cbv beta. run_upload_of w.
    all: try done; shape.
  - intros c; subst c. run_upload_of w.
    all: eexists; split_and!; [eassumption|reflexivity|].
    all: match goal with Hs : status _ = _ |- _ => by rewrite Hs end.
Qed.

(** C2 (as amended). On a check answered 403 the form with the [switch]
    fails with "Unauthorized", and the check is the last thing that happens:
    no [PUT], no payment; the only call of the credential resolver is the
    one made before the check. In the form with handlers a 403 is the
    request for a credential: [opts.auth], or else what the resolver gives,
    is sent with a [PUT] right after, followed at most by the [PUT] without
    a header; the upload fails with "Missing auth handler" only when there
    is neither. *)
Theorem forbidden_check server blob signal auth onPayment onAuth w :
  canParse server = true →
  checkedWith net server 403 →
  let url := mkURL "/upload" server in
  (let c := ViaSwitch.uploadBlob net server blob
              (ViaSwitch.callerOptions signal auth onPayment onAuth) in
   match credential auth onAuth server blob (trace w) with
   | Some (Throw e) =>
       events c w = [EvOnAuth server blob (Throw e)] ∧ outcome c w = Throw e
   | cred =>
       let a := match cred with Some (Ok a) => Some a | _ => None end in
       let before :=
         match auth, cred with
         | None, Some r => [EvOnAuth server blob r]
         | _, _ => []
         end in
       ∃ res,
         status res = 403
         ∧ events c w =
             before ++
             [EvFetch (mkRequest HEAD url signal
                         (ViaSwitch.checkHeaders blob
                            (ViaSwitch.uploadHeaders blob a)) NoBody) (Ok res)]
         ∧ outcome c w = Throw (Error "Error" "Unauthorized")
   end)
  ∧ (let c := ViaHandlers.uploadBlob net server blob
                (ViaHandlers.callerOptions signal auth onPayment onAuth) in
     let check := EvFetch (mkRequest HEAD url signal
                             (ViaHandlers.checkHeaders blob) NoBody) in
     let put a := EvFetch (mkRequest PUT url signal
                             {[ "Authorization" := encodeAuthorizationHeader a ]}
                             (BlobBody blob)) in
     let free e := ∃ again, e = EvFetch (mkRequest PUT url signal ∅
                                           (BlobBody blob)) again in
     ∃ res, status res = 403 ∧
       match auth, onAuth with
       | Some a, _ =>
           ∃ r rest, events c w = check (Ok res) :: put a r :: rest
                     ∧ Forall free rest ∧ (length rest ≤ 1)%nat
       | None, Some _ =>
           (∃ e, events c w = [check (Ok res); EvOnAuth server blob (Throw e)]
                 ∧ outcome c w = Throw e)
           ∨ (∃ a r rest,
                events c w = check (Ok res) :: EvOnAuth server blob (Ok a)
                             :: put a r :: rest
                ∧ Forall free rest ∧ (length rest ≤ 1)%nat)
       | None, None =>
           events c w = [check (Ok res)]
           ∧ outcome c w = Throw (Error "Error" "Missing auth handler")
       end).
Proof.
  intros Hu Hc url; subst url. split.
  - intros c; subst c. cbv beta. run_upload_of w.
    all: try done; shape.
  - intros c check put free; subst c check put free. cbv beta.
    run_upload_of w.
    all: eexists; (split; [eassumption|]).
    all: first
      [ solve [shape]
      | left; solve [shape]
      | right; do 3 eexists; (split; [reflexivity|]);
        split; [each_event; by eexists|cbn; lia]
      | do 2 eexists; (split; [reflexivity|]);
        split; [each_event; by eexists|cbn; lia] ].
Qed.

(** C7 (as amended). The headers of the requests. In the form with
    handlers the check carries the hash, the length and the type; a [PUT]
    carries the token alone right after the payment resolver has given it,
    the credential alone right after it was obtained on a 403, and no header
    at all otherwise: so the [PUT] that follows a check that passed, which
    is also the one an upload that succeeds ends with, has none. In the form
    with the [switch] every [PUT] carries the hash, the credential when
    there is one, and the token right after the payment resolver has given
    it; the length and the type are sent with the check only. In both forms
    what a resolver gives is sent with the very next request. *)
Theorem put_headers server blob signal auth onPayment onAuth w :
  (let c := ViaHandlers.uploadBlob net server blob
              (ViaHandlers.callerOptions signal auth onPayment onAuth) in
   requestsCarry (ViaHandlers.checkHeaders blob) (putHeadersViaHandlers auth)
     None (events c w)
   ∧ givenIsSent (λ _, true) (events c w)
   ∧ ∀ d, outcome c w = Ok d →
       ∃ req res, last (events c w) = Some (EvFetch req res)
                  ∧ method req = PUT ∧ headers req = ∅)
  ∧ (let c := ViaSwitch.uploadBlob net server blob
                (ViaSwitch.callerOptions signal auth onPayment onAuth) in
     let a := match credential auth onAuth server blob (trace w) with
              | Some (Ok a) => Some a
              | _ => None
              end in
     requestsCarry (ViaSwitch.checkHeaders blob (ViaSwitch.uploadHeaders blob a))
       (putHeadersViaSwitch blob a) None (events c w)
     ∧ givenIsSent isOnPayment (events c w)
     ∧ ViaSwitch.checkHeaders blob (ViaSwitch.uploadHeaders blob a)
         !! "X-Content-Length" = Some (pretty (getBlobSize blob))
     ∧ ∀ before,
         putHeadersViaSwitch blob a before !! "X-SHA-256"
           = Some (getBlobSha256 blob)
         ∧ putHeadersViaSwitch blob a before !! "Authorization"
           = encodeAuthorizationHeader <$> a
         ∧ putHeadersViaSwitch blob a before !! "X-Content-Length" = None
         ∧ putHeadersViaSwitch blob a before !! "X-Content-Type" = None).
Proof.
  split.
  - intros c; subst c. run_upload_of w.
    all: split_and!; [red_h | red_h | intros; simplify_eq; eauto].
    all: rewrite ?bool_decide_eq_true_2 by done;
      rewrite ?bool_decide_eq_false_2 by done; try done.
    all: repeat split; try done.
    all: by destruct auth.
  - intros c a.
    assert (∀ before,
      putHeadersViaSwitch blob a before !! "X-SHA-256"
        = Some (getBlobSha256 blob)
      ∧ putHeadersViaSwitch blob a before !! "Authorization"
        = encodeAuthorizationHeader <$> a
      ∧ putHeadersViaSwitch blob a before !! "X-Content-Length" = None
      ∧ putHeadersViaSwitch blob a before !! "X-Content-Type" = None) as Hput.
    { intros before. clear.
      assert (ViaSwitch.uploadHeaders blob a !! "Authorization"
              = encodeAuthorizationHeader <$> a) as Ha
        by (unfold ViaSwitch.uploadHeaders; destruct a; by simplify_map_eq).
      destruct before as [[| | ? ? ? [token|] | |]|]; cbn [putHeadersViaSwitch];
        lookups; rewrite ?Ha;
        repeat (rewrite uploadHeaders_lookup by done);
        repeat case_decide; done. }
    enough (requestsCarry
              (ViaSwitch.checkHeaders blob (ViaSwitch.uploadHeaders blob a))
              (putHeadersViaSwitch blob a) None (events c w)
            ∧ givenIsSent isOnPayment (events c w)) as [? ?]
      by (split_and!; try done; apply switch_checkHeaders_length).
    clear Hput. subst c a. run_upload_of w.
    all: split; red_h; repeat split; done.
Qed.

(** C8 (as amended). The form with the [switch] resolves the credential
    first of all, before the check, and attaches it to every request; the
    form with handlers calls for one only after a check answered 403. When
    the server is not a URL neither form gets that far: nothing is asked of
    the caller and nothing is sent. *)
Theorem credential_resolution_order server blob signal auth onPayment onAuth w :
  let viaSwitch := ViaSwitch.uploadBlob net server blob
                     (ViaSwitch.callerOptions signal auth onPayment onAuth) in
  let viaHandlers := ViaHandlers.uploadBlob net server blob
                       (ViaHandlers.callerOptions signal auth onPayment onAuth) in
  if canParse server then
    (match auth, onAuth with
     | None, Some f =>
         ∃ rest, events viaSwitch w
                 = EvOnAuth server blob (f server blob (trace w)) :: rest
                 ∧ count isOnAuth rest = 0%nat
     | _, _ => count isOnAuth (events viaSwitch w) = 0%nat
     end
     ∧ ∀ a, credential auth onAuth server blob (trace w) = Some (Ok a) →
            Forall (authorizedBy a) (events viaSwitch w))
    ∧ credentialAfter 403 false (events viaHandlers w) = true
  else
    events viaSwitch w = [] ∧ events viaHandlers w = [].
Proof.
  intros c c'; subst c c'. destruct (canParse server) eqn:Hu.
  - split.
    + run_upload_of w.
      all: (split; [first [done | by eexists]|]).
      all: intros cred Ha; known Ha.
      all: each_event; unfold authorizedBy, ViaSwitch.uploadHeaders; red_m;
        lookups; done.
    + run_upload_of w.
      all: lookups.
      all: rewrite ?(bool_decide_eq_false_2 (is_Some None)) by (by intros [? ?]).
      all: bools.
  - split; by run_upload_of w.
Qed.

End one_upload.

(** ** The cache of credentials *)

Section cache.
Context `{Externals}.

(** [firstMatch] finds the first credential that matches, if there is one. *)
Lemma firstMatch_first server blob auths auth :
  firstMatch server blob auths = Some auth →
  ∃ before after,
    auths = before ++ auth :: after
    ∧ Forall (λ a, doseAuthMatchUpload a server blob = false) before
    ∧ doseAuthMatchUpload auth server blob = true.
Proof.
  induction auths as [|a auths IH]; [done|]. cbn.
  destruct (doseAuthMatchUpload a server blob) eqn:Ha.
  - intros [= ->]. by exists [], auths.
  - intros (before & after & -> & Hb & Hm)%IH.
    exists (a :: before), after. split_and!; try done. by constructor.
Qed.

Lemma firstMatch_none server blob auths :
  firstMatch server blob auths = None →
  Forall (λ a, doseAuthMatchUpload a server blob = false) auths.
Proof.
  induction auths as [|a auths IH]; [done|]. cbn.
  destruct (doseAuthMatchUpload a server blob) eqn:Ha; [done|].
  intros ?%IH. by constructor.
Qed.

(** C5. A request for a credential is answered with the first credential of
    the cache, in the order they were acquired, that matches the server, and
    then the resolver is not called and nothing changes. When none matches
    the resolver is called, once; its credential is added at the end of the
    cache and returned. Without a resolver the request fails with "Missing
    onAuth handler". *)
Theorem credential_cache opts blob server w :
  let c := handleAuthRequest opts blob server in
  match firstMatch server blob (authEvents w) with
  | Some auth =>
      (∃ before after,
         authEvents w = before ++ auth :: after
         ∧ Forall (λ a, doseAuthMatchUpload a server blob = false) before
         ∧ doseAuthMatchUpload auth server blob = true)
      ∧ c w = (Ok auth, w)
  | None =>
      Forall (λ a, doseAuthMatchUpload a server blob = false) (authEvents w)
      ∧ match ms_onAuth opts with
        | Some onAuth =>
            events c w = [EvOnAuth server blob (onAuth server blob (trace w))]
            ∧ outcome c w = onAuth server blob (trace w)
            ∧ authEvents (c w).2 =
                match onAuth server blob (trace w) with
                | Ok auth => authEvents w ++ [auth]
                | Throw _ => authEvents w
                end
        | None => c w = (Throw (Error "Error" "Missing onAuth handler"), w)
        end
  end.
Proof.
  intros c; subst c.
  destruct (firstMatch server blob (authEvents w)) as [auth|] eqn:Hm.
  - split; [by apply firstMatch_first|].
    unfold handleAuthRequest, bind, get, ret. cbn. by rewrite Hm.
  - split; [by apply firstMatch_none|].
    unfold handleAuthRequest, events, appended, outcome.
    unfold_m; red_m. rewrite Hm.
    destruct (ms_onAuth opts) as [onAuth|]; [|done]. red_m.
    destruct (onAuth server blob (trace w)); red_m; by rewrite drop_trace.
Qed.

End cache.

(** ** An upload and a mirror made by the loop *)

(** Use in the goal what is known of the request for a payment. *)
Ltac requests :=
  repeat match goal with
  | E : importCashu = _ |- context [importCashu] => rewrite E
  | E : getPaymentRequestFromHeaders ?h = _
    |- context [getPaymentRequestFromHeaders ?h] => rewrite E
  | E : status ?r = _ |- context [status ?r] => rewrite E
  | E : canParse ?s = _ |- context [canParse ?s] => rewrite E
  end.

Section sub_runs.
Context `{Externals} (net : Network).

(** What an upload does when its resolvers are those of the loop: it adds to
    the trace, starting with its check, and leaves the first descriptor and
    the results alone. *)
Lemma upload_in_run opts blob server w :
  let c := ViaHandlers.uploadBlob net server blob (uploadOptions opts blob) in
  trace (c w).2 = trace w ++ events c w
  ∧ initialUpload (c w).2 = initialUpload w
  ∧ results (c w).2 = results w
  ∧ (if canParse server then
       ∃ res rest,
         events c w =
         EvFetch (mkRequest HEAD (mkURL "/upload" server) None
                    (ViaHandlers.checkHeaders blob) NoBody) res :: rest
     else events c w = []
          ∧ outcome c w = Throw (Error "TypeError" "Invalid URL"))
  ∧ Forall (uploadEvent server) (events c w)
  ∧ spent (events c w) = minted (events c w)
  ∧ paidFor (events c w) =
      match ms_onPayment opts with
      | Some _ => challenged (events c w)
      | None => []
      end
  ∧ (onlyErrors net (ms_onPayment opts) (ms_onAuth opts) →
       ∀ e, outcome c w = Throw e → instanceofError e = true).
Proof.
  intros c; subst c.
  match goal with |- context [?f w] =>
    lazymatch f with ViaHandlers.uploadBlob _ _ _ _ => hide (f w) end end.
  unfold_run; exec; unhide.
  all: try solve [ split_and!; tidy; rewrite ?app_nil_r; try done;
                   try (by destruct (ms_onPayment opts));
                   intros ? ? [= <-]; done ].
  all: split_and!; tidy;
    [ by rewrite ?app_nil_r | reflexivity | reflexivity
    | requests; first [by eexists _, _ | done]
    | each_event; unfold uploadEvent; by red_m
    | lookups; by red_m
    | requests; lookups; literals;
      repeat match goal with
             | E : ms_onPayment _ = _ |- _ => rewrite E
             end;
      first [done | by destruct (ms_onPayment opts)]
    | intros (Hn & Hp & Ha) ? [= <-]; try done; eauto ].
Qed.

(** The same for a mirror, which starts with the request for the copy. *)
Lemma mirror_in_run opts blob server source w :
  let c := mirrorBlob net server source (mirrorOptions opts blob) in
  trace (c w).2 = trace w ++ events c w
  ∧ initialUpload (c w).2 = initialUpload w
  ∧ results (c w).2 = results w
  ∧ (if canParse server then
       ∃ res rest,
         events c w =
         EvFetch (mkRequest PUT (mkURL "/mirror" server) (ms_signal opts) ∅
                    (SourceBody source)) res :: rest
     else events c w = []
          ∧ outcome c w = Throw (Error "TypeError" "Invalid URL"))
  ∧ Forall (mirrorEvent server source (ms_signal opts)) (events c w)
  ∧ spent (events c w) = minted (events c w)
  ∧ paidFor (events c w) =
      match ms_onPayment opts with
      | Some _ => challenged (events c w)
      | None => []
      end.
Proof.
  intros c; subst c.
  match goal with |- context [?f w] =>
    lazymatch f with mirrorBlob _ _ _ _ => hide (f w) end end.
  unfold_run; exec; unhide.
  all: try solve [ split_and!; tidy; rewrite ?app_nil_r; try done;
                   try (by destruct (ms_onPayment opts));
                   intros ? ? [= <-]; done ].
  all: split_and!; tidy;
    [ by rewrite ?app_nil_r | reflexivity | reflexivity
    | requests; first [by eexists _, _ | done]
    | each_event; unfold mirrorEvent; by red_m
    | lookups; by red_m
    | requests; lookups; literals;
      repeat match goal with
             | E : ms_onPayment _ = _ |- _ => rewrite E
             end;
      first [done | by destruct (ms_onPayment opts)] ].
Qed.

End sub_runs.

(** ** The loop, one server at a time *)

Section sub_run_frames.
Context `{Externals} (net : Network).

Lemma run_upload opts blob server w r w1 :
  ViaHandlers.uploadBlob net server blob (uploadOptions opts blob) w = (r, w1) →
  trace w1 = trace w ++ appended w w1
  ∧ initialUpload w1 = initialUpload w ∧ results w1 = results w
  ∧ events (ViaHandlers.uploadBlob net server blob (uploadOptions opts blob)) w
    = appended w w1.
Proof.
  intros E. pose proof (upload_in_run net opts blob server w) as Hu.
  cbv zeta in Hu. unfold events in *. rewrite E in *. cbn [fst snd] in *. tauto.
Qed.

Lemma run_mirror opts blob server source w r w1 :
  mirrorBlob net server source (mirrorOptions opts blob) w = (r, w1) →
  trace w1 = trace w ++ appended w w1
  ∧ initialUpload w1 = initialUpload w ∧ results w1 = results w
  ∧ events (mirrorBlob net server source (mirrorOptions opts blob)) w
    = appended w w1.
Proof.
  intros E. pose proof (mirror_in_run net opts blob server source w) as Hm.
  cbv zeta in Hm. unfold events in *. rewrite E in *. cbn [fst snd] in *. tauto.
Qed.

(** Two computations in a row append what each appends. *)
Lemma trace_bind {A B} (c : M A) (k : A → M B) w :
  trace (c w).2 = trace w ++ events c w →
  (∀ a w1, trace (k a w1).2 = trace w1 ++ events (k a) w1) →
  trace (bind c k w).2 = trace w ++ events (bind c k) w.
Proof.
  intros Hc Hk. unfold events, appended, bind in *.
  destruct (c w) as [[a|e] w1]; cbn [fst snd] in *; [|done].
  specialize (Hk a w1).
  set (s1 := drop (length (trace w)) (trace w1)) in *.
  set (s2 := drop (length (trace w1)) (trace (k a w1).2)) in *.
  by rewrite Hk, Hc, <- app_assoc, drop_trace.
Qed.

Lemma events_bind {A B} (c : M A) (k : A → M B) w :
  trace (c w).2 = trace w ++ events c w →
  (∀ a w1, trace (k a w1).2 = trace w1 ++ events (k a) w1) →
  events (bind c k) w =
  events c w ++ match c w with
                | (Ok a, w1) => events (k a) w1
                | (Throw _, _) => []
                end.
Proof.
  intros Hc Hk. unfold events, appended, bind in *.
  destruct (c w) as [[a|e] w1]; cbn [fst snd] in *; [|by rewrite app_nil_r].
  specialize (Hk a w1).
  set (s1 := drop (length (trace w)) (trace w1)) in *.
  set (s2 := drop (length (trace w1)) (trace (k a w1).2)) in *.
  by rewrite Hk, Hc, <- app_assoc, drop_trace.
Qed.

End sub_run_frames.

(** At the end of a step: bring in what the mirror and the upload did. *)
Ltac name_segment Ht :=
  let seg := fresh "seg" in
  lazymatch type of Ht with
  | trace ?w1 = trace ?w ++ _ =>
      change (drop (length (trace w)) (trace w1)) with (appended w w1) in *;
      set (seg := appended w w1) in *
  end.

Ltac sub_runs :=
  repeat match goal with
  | E : mirrorBlob _ _ _ _ _ = _ |- _ =>
      let Ht := fresh "Ht" in
      let Hi := fresh "Hi" in
      let Hr := fresh "Hr" in
      let Hs := fresh "Hs" in
      destruct (run_mirror _ _ _ _ _ _ _ _ E) as (Ht & Hi & Hr & Hs);
      name_segment Ht; revert E
  | E : ViaHandlers.uploadBlob _ _ _ _ _ = _ |- _ =>
      let Ht := fresh "Ht" in
      let Hi := fresh "Hi" in
      let Hr := fresh "Hr" in
      let Hs := fresh "Hs" in
      destruct (run_upload _ _ _ _ _ _ _ E) as (Ht & Hi & Hr & Hs);
      name_segment Ht; revert E
  end; intros;
  repeat match goal with
  | Ht : trace ?x = trace _ ++ _ |- context [trace ?x] => rewrite Ht
  | Hi : initialUpload ?x = initialUpload _ |- context [initialUpload ?x] =>
      rewrite Hi
  | Hr : results ?x = results _ |- context [results ?x] => rewrite Hr
  end.

Section loop.
Context `{Externals} (net : Network).

(** The first descriptor is kept. *)
Lemma step_initialUpload opts blob server w :
  ∃ v, initialUpload (serverStep net opts blob server w).2 =
       match initialUpload w with Some _ => initialUpload w | None => v end.
Proof.
  hide (serverStep net opts blob server w).
  unfold serverStep. exec; unhide; red_m; sub_runs; tidy.
  all: repeat match goal with
       | Hi : initialUpload ?x = initialUpload _, E : initialUpload ?x = _ |- _ =>
           rewrite Hi in E
       end.
  all: first [ by eexists | by exists None | exists None; congruence ].
Qed.

(** A property of traces that holds of nothing, is kept by concatenation and
    holds of what a mirror, an upload and a notification append, holds of what
    a step and what the whole loop append. *)
Section segments.
Variables (opts : MultiServerUploadOptions) (blob : Blob).
Variables (P : list Event → Prop) (I : option BlobDescriptor → Prop).
Hypothesis P_nil : P [].
Hypothesis P_app : ∀ a b, P a → P b → P (a ++ b).
Hypothesis P_onUpload : ∀ server r, P [EvOnUpload server blob r].
Hypothesis P_onError : ∀ server e r, P [EvOnError server blob e r].
Hypothesis P_mirror : ∀ server source w,
  I (Some source) →
  P (events (mirrorBlob net server source (mirrorOptions opts blob)) w).
Hypothesis P_upload : ∀ server w,
  P (events (ViaHandlers.uploadBlob net server blob (uploadOptions opts blob)) w).

Lemma step_segment server w :
  let c := serverStep net opts blob server in
  trace (c w).2 = trace w ++ events c w
  ∧ (I (initialUpload w) → P (events c w)).
Proof.
  intros c; subst c. hide (serverStep net opts blob server w).
  unfold serverStep. exec; unhide; red_m; sub_runs; tidy.
  all: split; [reflexivity|intros HI].
  all: repeat first
    [ apply P_nil | apply P_onUpload | apply P_onError
    | match goal with Hs : _ = ?seg |- P ?seg =>
        rewrite <- Hs; first [apply P_upload | by apply P_mirror]
      end
    | apply P_app
    | match goal with
      | |- P (?e :: ?l) =>
          lazymatch l with [] => fail | _ => change (P ([e] ++ l)) end
      end ].
Qed.

Hypothesis I_keep : ∀ o v, I o → I (match o with Some _ => o | None => v end).

Lemma loop_segment servers w :
  let c := forEachServer net opts blob servers in
  trace (c w).2 = trace w ++ events c w
  ∧ (I (initialUpload w) → P (events c w) ∧ I (initialUpload (c w).2)).
Proof.
  revert w. induction servers as [|server rest IH]; intros w c; subst c.
  - unfold events, appended. cbn. rewrite drop_trace_nil, app_nil_r. auto.
  - destruct (step_segment server w) as [Ht HP].
    destruct (step_initialUpload opts blob server w) as [v Hv].
    cbn [forEachServer]. split.
    { apply trace_bind; [done|]. intros _ w1. apply IH. }
    rewrite (events_bind _ _ _ Ht) by (intros _ w1; apply IH).
    unfold bind.
    destruct (serverStep net opts blob server w) as [[[]|e] w1];
      cbn [fst snd] in *; intros HI.
    + destruct (IH w1) as [_ HP1]. destruct HP1 as [HP1 HI1].
      { rewrite Hv. by apply I_keep. }
      split; [apply P_app|]; auto.
    + rewrite app_nil_r. split; [auto|]. rewrite Hv. by apply I_keep.
Qed.

End segments.

End loop.

Section step.
Context `{Externals} (net : Network).

(** The step for one server is its attempt, followed by the entry in the
    results and the call of [onUpload], all under the handler that calls
    [onError]. *)
Lemma step_is_attempt opts blob server w :
  serverStep net opts blob server w =
  try_catch
    (let* metadata := attempt net opts blob server in
     do modify (λ w, setResults (<[ server := metadata ]> (results w)) w) in
     match ms_onUpload opts with
     | Some onUpload => callOnUpload onUpload server blob
     | None => ret tt
     end)
    (λ error,
       if instanceofError error then
         match ms_onError opts with
         | Some onError => callOnError onError server blob error
         | None => ret tt
         end
       else ret tt) w.
Proof.
  unfold serverStep, attempt, try_catch, bind, get. cbn.
  destruct (initialUpload w) as [source|]; cbn.
  - destruct (mirrorBlob net server source (mirrorOptions opts blob) w)
      as [[[d|]|e] w1]; cbn; try done.
    all: by destruct (ViaHandlers.uploadBlob net server blob
                        (uploadOptions opts blob) w1) as [[v|e'] w2].
  - by destruct (ViaHandlers.uploadBlob net server blob
                   (uploadOptions opts blob) w) as [[v|e'] w2].
Qed.

(** What an attempt is made of: the mirror, when there is a first
    descriptor, and the upload when the mirror gives nothing. The failure of
    the mirror is dropped; the one of the upload is the attempt's. *)
Lemma attempt_described opts blob server w :
  let m source := mirrorBlob net server source (mirrorOptions opts blob) in
  let u := ViaHandlers.uploadBlob net server blob (uploadOptions opts blob) in
  let a := attempt net opts blob server in
  trace (a w).2 = trace w ++ events a w
  ∧ results (a w).2 = results w
  ∧ match initialUpload w with
    | Some source =>
        initialUpload (a w).2 = Some source
        ∧ match m source w with
          | (Ok (Some d), w1) =>
              events a w = events (m source) w ∧ outcome a w = Ok (Some d)
          | (_, w1) =>
              events a w = events (m source) w ++ events u w1
              ∧ outcome a w = outcome u w1
          end
    | None =>
        events a w = events u w ∧ outcome a w = outcome u w
        ∧ initialUpload (a w).2 =
            match outcome u w with Ok v => v | Throw _ => None end
    end.
Proof.
  intros m u a; subst m u a.
  hide (attempt net opts blob server w).
  unfold attempt. exec; unhide; red_m; sub_runs; tidy.
  all: repeat match goal with
       | Hi : initialUpload ?x = initialUpload _, E : initialUpload ?x = _ |- _ =>
           rewrite Hi in E
       end.
  all: rewrite ?app_nil_r; split_and!; try done; congruence.
Qed.

(** What the step adds to its attempt: the entry in the results when the
    attempt gave a result, and what the caller is told. *)
Lemma step_by_attempt opts blob server w :
  let a := attempt net opts blob server in
  let c := serverStep net opts blob server in
  ∃ t, events c w = events a w ++ t
       ∧ told server blob (outcome a w) t
       ∧ results (c w).2 = match outcome a w with
                           | Ok v => <[ server := v ]> (results w)
                           | Throw _ => results w
                           end
       ∧ initialUpload (c w).2 = initialUpload (a w).2
       ∧ succeeded t = match outcome a w, ms_onUpload opts with
                       | Ok _, Some _ => [server]
                       | _, _ => []
                       end
       ∧ (ms_onError opts = None → reported t = [])
       ∧ (callbacksReturn opts →
            outcome c w = Ok tt
            ∧ t = match outcome a w with
                  | Ok _ =>
                      match ms_onUpload opts with
                      | Some _ => [EvOnUpload server blob (Ok tt)]
                      | None => []
                      end
                  | Throw e =>
                      match ms_onError opts with
                      | Some _ =>
                          if instanceofError e
                          then [EvOnError server blob e (Ok tt)] else []
                      | None => []
                      end
                  end).
Proof.
  intros a c; subst a c.
  destruct (attempt_described opts blob server w) as (Ht & Hr & _).
  cbv zeta in Ht, Hr. unfold events, appended in Ht.
  hide (serverStep net opts blob server w).
  rewrite step_is_attempt. exec; unhide.
  all: cbn [fst snd] in *; repeat match goal with u : () |- _ => destruct u end.
  all: match type of Ht with
       | _ = _ ++ ?d => set (seg := d) in *
       end; red_m; rewrite ?Ht, <- ?app_assoc, ?drop_trace.
  all: first [ eexists; split; [reflexivity|]
             | exists []; split; [by rewrite ?app_nil_r|] ].
  all: (split; [unfold told; by eauto 6|]); (split; [by rewrite ?Hr|]);
    (split; [done|]).
  all: split; [first [done | by destruct (ms_onUpload opts)]|].
  all: split; [first [done | congruence]|].
  all: intros [Hu He]; cbn [app].
  all: repeat match goal with
       | E : ms_onUpload _ = Some _ |- _ => specialize (Hu _ E)
       | E : ms_onError _ = Some _ |- _ => specialize (He _ E)
       end.
  all: repeat match goal with
       | E : ?f _ _ _ = Throw _, Hu : ∀ s b t, ?f s b t = Ok tt |- _ =>
           by rewrite Hu in E
       | E : ?f _ _ _ _ = Throw _, He : ∀ s b e t, ?f s b e t = Ok tt |- _ =>
           by rewrite He in E
       end.
  all: try done.
  all: rewrite ?He;
    repeat match goal with E : instanceofError _ = _ |- _ => rewrite E end;
    try done.
  all: by destruct (ms_onError opts).
Qed.

(** What the step for one server does, whatever the caller's callbacks. *)
Lemma step_shape opts blob server w :
  let m source := mirrorBlob net server source (mirrorOptions opts blob) in
  let u := ViaHandlers.uploadBlob net server blob (uploadOptions opts blob) in
  let c := serverStep net opts blob server in
  let mirrored :=
    match initialUpload w with
    | Some source =>
        match m source w with (Ok v, w1) => (v, w1) | (Throw _, w1) => (None, w1) end
    | None => (None, w)
    end in
  match mirrored with
  | (Some d, w1) =>
      ∃ t, events c w = appended w w1 ++ t
           ∧ told server blob (Ok d) t
           ∧ results (c w).2 = <[ server := Some d ]> (results w)
  | (None, w1) =>
      let '(r, w2) := u w1 in
      ∃ t, events c w = appended w w1 ++ appended w1 w2 ++ t
           ∧ told server blob r t
           ∧ results (c w).2 = match r with
                               | Ok v => <[ server := v ]> (results w)
                               | Throw _ => results w
                               end
  end.
Proof.
  intros m u c; subst m u c.
  hide (serverStep net opts blob server w).
  unfold serverStep. exec; unhide; red_m; sub_runs; tidy.
  all: first [ eexists; split; [reflexivity|]
             | exists []; split; [by rewrite ?app_nil_r|] ].
  all: split; [unfold told; eauto 6|done].
Qed.

(** The observations of a trace made of parts. *)
Lemma succeeded_app (a b : list Event) :
  succeeded (a ++ b) = succeeded a ++ succeeded b.
Proof. apply omap_app. Qed.
Lemma contacted_app (a b : list Event) :
  contacted (a ++ b) = contacted a ++ contacted b.
Proof. apply omap_app. Qed.

(** An upload and a mirror notify nobody. *)
Lemma quiet_upload server (seg : list Event) :
  Forall (uploadEvent server) seg →
  succeeded seg = [] ∧ failed seg = [] ∧ notified seg = []
  ∧ Forall (λ e, isMirror e = false) seg.
Proof.
  induction 1 as [|e seg He _ (IH1 & IH2 & IH3 & IH4)]; [done|].
  destruct e as [req ?| | | |]; try done; cbn; rewrite ?IH1, ?IH2, ?IH3;
    repeat split; try done; constructor; try done.
  destruct He as [Hurl _]. cbn. by rewrite Hurl.
Qed.

Lemma quiet_mirror server source sig (seg : list Event) :
  Forall (mirrorEvent server source sig) seg →
  succeeded seg = [] ∧ failed seg = [] ∧ notified seg = []
  ∧ Forall (mirrorsFrom source sig) seg.
Proof.
  induction 1 as [|e seg He _ (IH1 & IH2 & IH3 & IH4)]; [done|].
  destruct e as [req ?| | | |]; try done; cbn; rewrite ?IH1, ?IH2, ?IH3;
    repeat split; try done; constructor; try done.
  destruct He as (? & ? & ?). by cbn.
Qed.

End step.

Section run.
Context `{Externals} (net : Network).

Lemma step_extends opts blob server w :
  let c := serverStep net opts blob server in
  trace (c w).2 = trace w ++ events c w.
Proof.
  apply (step_segment net opts blob (λ _, True) (λ _, True)); done.
Qed.

Lemma loop_extends opts blob servers w :
  let c := forEachServer net opts blob servers in
  trace (c w).2 = trace w ++ events c w.
Proof.
  apply (loop_segment net opts blob (λ _, True) (λ _, True)); done.
Qed.

(** [multiServerUpload] is its loop, run from the start. *)
Lemma multi_run servers blob opts w :
  let c := multiServerUpload net servers blob opts in
  let loop := forEachServer net opts blob servers in
  (c w).2 = (loop (started opts w)).2
  ∧ events c w = events loop (started opts w)
  ∧ outcome c w = match outcome loop (started opts w) with
                  | Ok _ => Ok (results (c w).2)
                  | Throw e => Throw e
                  end.
Proof.
  unfold multiServerUpload, started, events, appended, outcome, bind, modify,
    get. cbn.
  destruct (forEachServer net opts blob servers _) as [[[]|e] w1]; done.
Qed.

(** No failure is reported where nobody is told of one. *)
Lemma reported_none (l : list Event) : failed l = [] → reported l = [].
Proof. induction l as [|[] l IH]; cbn; auto; done. Qed.

Lemma reported_app (a b : list Event) :
  reported (a ++ b) = reported a ++ reported b.
Proof. apply omap_app. Qed.

(** An attempt starts with a request to its server, unless the server is not
    a URL: then nothing is sent and the attempt fails with the [TypeError] of
    [new URL]. An attempt tells the caller nothing. *)
Lemma attempt_contacts opts blob server w :
  let a := attempt net opts blob server in
  (if canParse server then server ∈ contacted (events a w)
   else events a w = []
        ∧ outcome a w = Throw (Error "TypeError" "Invalid URL"))
  ∧ succeeded (events a w) = [] ∧ reported (events a w) = [].
Proof.
  intros a; subst a.
  destruct (attempt_described net opts blob server w) as (_ & _ & Hd).
  cbv zeta in Hd.
  assert (∀ w1,
    let u := ViaHandlers.uploadBlob net server blob (uploadOptions opts blob) in
    (if canParse server then server ∈ contacted (events u w1)
     else events u w1 = []
          ∧ outcome u w1 = Throw (Error "TypeError" "Invalid URL"))
    ∧ succeeded (events u w1) = [] ∧ reported (events u w1) = []) as Hup.
  { intros w1 u.
    destruct (upload_in_run net opts blob server w1)
      as (_ & _ & _ & Hhead & Hall & _).
    fold u in Hhead, Hall.
    apply quiet_upload in Hall as (? & ?%reported_none & _).
    split_and!; try done. destruct (canParse server); [|done].
    destruct Hhead as (res & rest & ->). cbn. apply list_elem_of_here. }
  assert (∀ source,
    let m := mirrorBlob net server source (mirrorOptions opts blob) in
    (if canParse server then server ∈ contacted (events m w)
     else events m w = [] ∧ ∃ e, outcome m w = Throw e)
    ∧ succeeded (events m w) = [] ∧ reported (events m w) = []) as Hmi.
  { intros source m.
    destruct (mirror_in_run net opts blob server source w)
      as (_ & _ & _ & Hhead & Hall & _).
    fold m in Hhead, Hall.
    apply quiet_mirror in Hall as (? & ?%reported_none & _).
    split_and!; try done. destruct (canParse server).
    - destruct Hhead as (res & rest & ->). cbn. apply list_elem_of_here.
    - destruct Hhead. eauto. }
  destruct (initialUpload w) as [source|].
  - destruct Hd as [_ Hd]. specialize (Hmi source). cbv zeta in Hmi.
    unfold outcome in Hmi.
    destruct (mirrorBlob net server source (mirrorOptions opts blob) w)
      as [[[d|]|em] w1] eqn:Em; cbn [fst snd] in *;
      destruct Hd as [Hev Hout], Hmi as (Hc & Hs & Hr);
      try destruct (Hup w1) as (Hc' & Hs' & Hr');
      rewrite Hev, Hout, ?succeeded_app, ?reported_app, ?contacted_app,
        ?Hs, ?Hr, ?Hs', ?Hr';
      (split_and!; try done); destruct (canParse server);
      rewrite ?elem_of_app; auto.
    + by destruct Hc as (_ & ? & ?).
    + by destruct Hc as [-> _], Hc' as [-> ->].
    + by destruct Hc as [-> _], Hc' as [-> ->].
  - destruct Hd as (Hev & Hout & _). rewrite Hev, Hout. apply Hup.
Qed.

Lemma outcome_bind {A B} (c : M A) (k : A → M B) w :
  outcome (bind c k) w =
  match c w with
  | (Ok a, w1) => outcome (k a) w1
  | (Throw e, _) => Throw e
  end.
Proof. unfold outcome, bind. by destruct (c w) as [[a|e] w1]. Qed.

Lemma state_bind {A B} (c : M A) (k : A → M B) w :
  (bind c k w).2 =
  match c w with
  | (Ok a, w1) => (k a w1).2
  | (Throw e, w1) => w1
  end.
Proof. unfold bind. by destruct (c w) as [[a|e] w1]. Qed.

(** The loop, as the steps it gets to. What it appends to the trace is what
    its steps append, one after the other. The results gain an entry for
    each attempt that gave a result, and [onUpload] is called for these;
    when the caller's callbacks return, every server of the list gets its
    step and [onError] is called for each attempt that failed with an
    [Error], with that error. *)
Lemma loop_described opts blob servers w :
  let c := forEachServer net opts blob servers in
  let steps := runSteps net opts blob servers w in
  let outcomes :=
    map (λ step, (step.1, attemptOutcome net opts blob step)) steps in
  events c w = concat (map (stepEvents net opts blob) steps)
  ∧ map fst steps `prefix_of` servers
  ∧ dom (results (c w).2) = dom (results w) ∪ list_to_set (successes outcomes)
  ∧ (∀ s v, results (c w).2 !! s = Some v →
       results w !! s = Some v ∨ (s, Ok v) ∈ outcomes)
  ∧ (∀ s, s ∈ map fst steps → canParse s = true → s ∈ contacted (events c w))
  ∧ succeeded (events c w) =
      match ms_onUpload opts with Some _ => successes outcomes | None => [] end
  ∧ (ms_onError opts = None → reported (events c w) = [])
  ∧ (∀ r, outcome c w = Ok r → map fst steps = servers)
  ∧ (callbacksReturn opts →
       outcome c w = Ok tt
       ∧ (is_Some (ms_onError opts) →
            reported (events c w) = failures outcomes)).
Proof.
  revert w. induction servers as [|server rest IH]; intros w c steps outcomes;
    subst c steps outcomes.
  { unfold events, appended, outcome. cbn. rewrite drop_trace_nil. cbn.
    split_and!; try done; try set_solver.
    by destruct (ms_onUpload opts). }
  cbn [forEachServer runSteps].
  pose proof (step_extends opts blob server w) as Hex. cbv zeta in Hex.
  rewrite (events_bind _ _ _ Hex)
    by (intros _ w1; apply (loop_extends opts blob rest w1)).
  rewrite outcome_bind, state_bind.
  destruct (step_by_attempt net opts blob server w)
    as (t & Hev & _ & Hres & _ & Hsu & Hre & Hret).
  destruct (attempt_contacts opts blob server w) as (Hc & Hs & Hr).
  cbv zeta in Hc, Hs, Hr.
  cbn [map concat fst snd]. unfold stepEvents at 1. cbn [fst snd].
  change (attemptOutcome net opts blob (server, w))
    with (outcome (attempt net opts blob server) w).
  rewrite Hev, !succeeded_app, !reported_app, !contacted_app, Hs, Hr, Hsu.
  cbn [app]. clear Hev Hs Hr Hsu Hex.
  unfold outcome at 1 in Hret.
  set (ra := outcome (attempt net opts blob server) w) in *. clearbody ra.
  set (ea := events (attempt net opts blob server) w) in *. clearbody ea.
  destruct (serverStep net opts blob server w) as [[[]|e] w1];
    cbn [fst snd] in *.
  - specialize (IH w1). cbv zeta in IH.
    destruct IH as (IH1 & IH2 & IH3 & IH4 & IH5 & IH6 & IH7 & IH9 & IH8).
    rewrite IH1, IH3, <- IH1, IH6, Hres.
    split_and!.
    + done.
    + by apply prefix_cons.
    + destruct ra; cbn; [rewrite dom_insert_L|]; set_solver.
    + intros s v Hl. destruct (IH4 s v Hl) as [Hw|Hin].
      * rewrite Hres in Hw. destruct ra as [v'|]; cbn in *; [|auto].
        destruct (decide (s = server)) as [->|];
          [rewrite lookup_insert_eq in Hw|rewrite lookup_insert_ne in Hw by done];
          [|auto].
        injection Hw as ->. right. apply list_elem_of_here.
      * right. by apply list_elem_of_further.
    + intros s [->|Hin]%elem_of_cons Hu; rewrite !elem_of_app.
      * rewrite Hu in Hc. auto.
      * auto.
    + destruct ra, (ms_onUpload opts); done.
    + intros Hn. rewrite (Hre Hn), (IH7 Hn). done.
    + intros r Hr. by rewrite (IH9 r Hr).
    + intros Hcb. destruct (Hret Hcb) as [_ ->].
      destruct (IH8 Hcb) as (-> & IHr). split_and!; try done.
      intros He. rewrite (IHr He). destruct He as [f ->].
      destruct ra as [|e]; cbn; [by destruct (ms_onUpload opts)|].
      by destruct (instanceofError e).
  - rewrite !app_nil_r. cbn [map]. rewrite Hres.
    split_and!.
    + done.
    + apply prefix_cons, prefix_nil.
    + destruct ra; cbn; [rewrite dom_insert_L|]; set_solver.
    + intros s v Hw. destruct ra as [v'|]; cbn in *; [|auto].
      destruct (decide (s = server)) as [->|];
        [rewrite lookup_insert_eq in Hw|rewrite lookup_insert_ne in Hw by done];
        [|auto].
      injection Hw as ->. right. apply list_elem_of_here.
    + intros s [->|Hin]%elem_of_cons Hu; rewrite !elem_of_app.
      * rewrite Hu in Hc. auto.
      * by apply elem_of_nil in Hin.
    + destruct ra, (ms_onUpload opts); done.
    + done.
    + done.
    + intros Hcb. by destruct (Hret Hcb).
Qed.

(** The first descriptor is the one of the first upload that gives one. *)
Lemma step_sets_initialUpload opts blob server w :
  initialUpload (serverStep net opts blob server w).2 =
  match initialUpload w with
  | Some _ => initialUpload w
  | None =>
      match outcome (ViaHandlers.uploadBlob net server blob
                       (uploadOptions opts blob)) w with
      | Ok v => v
      | Throw _ => None
      end
  end.
Proof.
  hide (serverStep net opts blob server w).
  unfold serverStep. exec; unhide; red_m; sub_runs; tidy.
  all: repeat match goal with
       | Hi : initialUpload ?x = initialUpload _, E : initialUpload ?x = _ |- _ =>
           rewrite Hi in E
       end.
  all: congruence.
Qed.

Lemma no_mirror_mirrorsFrom source sig (seg : list Event) :
  Forall (λ e, isMirror e = false) seg → Forall (mirrorsFrom source sig) seg.
Proof.
  intros Hf. eapply Forall_impl; [exact Hf|].
  intros [req ?| | | |]; cbn; try done.
  intros Hp%bool_decide_eq_false. done.
Qed.

(** Once there is a first descriptor, it stays, and every mirror names it. *)
Lemma loop_keeps_initialUpload opts blob servers source w :
  initialUpload w = Some source →
  let c := forEachServer net opts blob servers in
  initialUpload (c w).2 = Some source
  ∧ Forall (mirrorsFrom source (ms_signal opts)) (events c w).
Proof.
  intros Hi c.
  destruct (loop_segment net opts blob
              (Forall (mirrorsFrom source (ms_signal opts)))
              (λ o, o = Some source)) with (servers := servers) (w := w)
    as [_ Hl]; try done.
  - intros. by apply Forall_app.
  - intros. by repeat constructor.
  - intros. by repeat constructor.
  - intros server source' w1 [= ->].
    destruct (mirror_in_run net opts blob server source w1)
      as (_ & _ & _ & _ & Hall & _).
    by apply quiet_mirror in Hall as (_ & _ & _ & ?).
  - intros server w1.
    destruct (upload_in_run net opts blob server w1)
      as (_ & _ & _ & _ & Hall & _).
    apply quiet_upload in Hall as (_ & _ & _ & ?).
    by apply no_mirror_mirrorsFrom.
  - by intros ? ? ->.
  - destruct (Hl Hi). done.
Qed.

(** Before there is one, nothing is mirrored. *)
Lemma step_without_source opts blob server w :
  initialUpload w = None →
  Forall (λ e, isMirror e = false) (events (serverStep net opts blob server) w).
Proof.
  intros Hi.
  apply (step_segment net opts blob (Forall (λ e, isMirror e = false))
           (λ o, o = None)); try done.
  - intros. by apply Forall_app.
  - intros. by repeat constructor.
  - intros. by repeat constructor.
  - intros server' w1.
    destruct (upload_in_run net opts blob server' w1)
      as (_ & _ & _ & _ & Hall & _).
    by apply quiet_upload in Hall as (_ & _ & _ & ?).
Qed.

Lemma loop_mirrors opts blob servers w :
  let c := forEachServer net opts blob servers in
  match initialUpload (c w).2 with
  | Some source =>
      (initialUpload w = None ∨ initialUpload w = Some source)
      ∧ Forall (mirrorsFrom source (ms_signal opts)) (events c w)
  | None =>
      initialUpload w = None ∧ Forall (λ e, isMirror e = false) (events c w)
  end.
Proof.
  revert w. induction servers as [|server rest IH]; intros w c; subst c.
  - unfold events, appended. cbn. rewrite drop_trace_nil.
    destruct (initialUpload w); auto.
  - destruct (initialUpload w) as [source|] eqn:Hi.
    { destruct (loop_keeps_initialUpload opts blob (server :: rest) source w Hi)
        as [-> ?]. auto. }
    pose proof (step_extends opts blob server w) as Hex. cbv zeta in Hex.
    pose proof (step_without_source opts blob server w Hi) as Hno.
    cbn [forEachServer].
    rewrite (events_bind _ _ _ Hex)
      by (intros _ w1; apply (loop_extends opts blob rest w1)).
    unfold bind.
    destruct (serverStep net opts blob server w) as [[[]|e] w1];
      cbn [fst snd] in *.
    + specialize (IH w1). cbv zeta in IH.
      destruct (initialUpload (forEachServer net opts blob rest w1).2).
      * destruct IH as [_ IH]. split; [auto|].
        apply Forall_app. split; [by apply no_mirror_mirrorsFrom|done].
      * destruct IH as [_ IH]. split; [done|]. by apply Forall_app.
    + rewrite app_nil_r. destruct (initialUpload w1).
      * split; [auto|]. by apply no_mirror_mirrorsFrom.
      * done.
Qed.



(** When the outside only throws [Error]s, so does an attempt. *)
Lemma attempt_throws_errors opts blob server w e :
  onlyErrors net (ms_onPayment opts) (ms_onAuth opts) →
  outcome (attempt net opts blob server) w = Throw e →
  instanceofError e = true.
Proof.
  intros Hoe.
  destruct (attempt_described net opts blob server w) as (_ & _ & Hd).
  cbv zeta in Hd.
  assert (∀ w1, outcome (ViaHandlers.uploadBlob net server blob
                           (uploadOptions opts blob)) w1 = Throw e →
                instanceofError e = true) as Hup.
  { intros w1.
    destruct (upload_in_run net opts blob server w1)
      as (_ & _ & _ & _ & _ & _ & _ & Herr). by apply Herr. }
  destruct (initialUpload w) as [source|].
  - destruct Hd as [_ Hd].
    destruct (mirrorBlob net server source (mirrorOptions opts blob) w)
      as [[[d|]|em] w1]; destruct Hd as [_ ->]; [done|apply Hup..].
  - destruct Hd as (_ & -> & _). apply Hup.
Qed.

End run.

Section outcomes.
Context `{Externals}.

Lemma failed_reported (t : list Event) : failed t = (reported t).*1.
Proof.
  unfold failed, reported.
  induction t as [|[] t IH]; cbn; rewrite ?IH; try done.
Qed.

Lemma successes_within outcomes s : s ∈ successes outcomes → s ∈ outcomes.*1.
Proof.
  induction outcomes as [|[s' [v|e]] l IH]; cbn; rewrite ?elem_of_cons;
    [by rewrite elem_of_nil|..]; tauto.
Qed.

Lemma failures_within outcomes s :
  s ∈ (failures outcomes).*1 → s ∈ outcomes.*1.
Proof.
  induction outcomes as [|[s' [v|e]] l IH]; cbn; [done|..].
  - rewrite elem_of_cons. tauto.
  - destruct (instanceofError e); cbn; rewrite ?elem_of_cons; tauto.
Qed.

(** When each server has one attempt and attempts only fail with [Error]s:
    a server has no success if and only if it has a failure. *)
Lemma absent_iff_failed outcomes s :
  Forall (λ o, ∀ e, o.2 = Throw e → instanceofError e = true) outcomes →
  NoDup outcomes.*1 → s ∈ outcomes.*1 →
  s ∉ successes outcomes ↔ s ∈ (failures outcomes).*1.
Proof.
  induction outcomes as [|[s' r] l IH]; cbn [fmap list_fmap fst].
  { intros _ _ []%elem_of_nil. }
  intros [He Hall]%Forall_cons [Hn Hnd]%NoDup_cons Hin.
  pose proof (successes_within l s) as Hsw.
  pose proof (failures_within l s) as Hfw.
  destruct (decide (s = s')) as [->|Hne].
  - destruct r as [v|e]; cbn.
    + rewrite elem_of_cons. split; [intros []; auto|intros ?%Hfw; done].
    + rewrite (He e eq_refl). cbn. rewrite elem_of_cons.
      split; [auto|]. intros _ ?%Hsw. done.
  - apply elem_of_cons in Hin as [?|Hin]; [done|].
    specialize (IH Hall Hnd Hin).
    destruct r as [v|e]; cbn; [|destruct (instanceofError e); cbn];
      rewrite ?elem_of_cons; tauto.
Qed.

End outcomes.

Section whole_runs.
Context `{Externals} (net : Network).

(** C6 (as amended). Over a whole run, the calls of the payment resolver
    are, one for one and in order, the 402s that can be taken up, each call
    with the server that answered and the request read from its answer. A
    402 can be taken up when it answers the check of an upload, or a request
    for a copy that carries no token yet, when the module of the tokens
    loads and when the request for payment can be read from the answer; a
    402 to any other request, and one whose request cannot be read, is
    followed by no call. Without a resolver there is no call at all. The
    tokens sent are, one for one and in order, the tokens handed out, each
    sent to the server it was asked for: no token is kept, none is sent
    twice. *)
Theorem payment_per_challenge servers blob opts w :
  let c := multiServerUpload net servers blob opts in
  paidFor (events c w) =
    match ms_onPayment opts with
    | Some _ => challenged (events c w)
    | None => []
    end
  ∧ spent (events c w) = minted (events c w).
Proof.
  intros c. subst c.
  destruct (multi_run net servers blob opts w) as (_ & -> & _).
  apply (loop_segment net opts blob
           (λ seg, paidFor seg = match ms_onPayment opts with
                                 | Some _ => challenged seg
                                 | None => []
                                 end
                   ∧ spent seg = minted seg)
           (λ _, True)); try done.
  - by destruct (ms_onPayment opts).
  - intros a b [Ha1 Ha2] [Hb1 Hb2].
    unfold challenged, paidFor, spent, minted in *.
    rewrite !omap_app. rewrite Ha1, Ha2, Hb1, Hb2.
    by destruct (ms_onPayment opts).
  - intros. by destruct (ms_onPayment opts).
  - intros. by destruct (ms_onPayment opts).
  - intros server source w1 _.
    by destruct (mirror_in_run net opts blob server source w1)
      as (_ & _ & _ & _ & _ & Hs & Hc).
  - intros server w1.
    by destruct (upload_in_run net opts blob server w1)
      as (_ & _ & _ & _ & _ & Hs & Hc & _).
Qed.

(** C10. Once [initialUpload] holds a descriptor it is never assigned again:
    it is still there after any further servers, and every mirror of the
    run names it as its source. It is set by the first upload that gives a
    descriptor, and before that nothing is mirrored. *)
Theorem first_descriptor_is_kept servers blob opts w :
  (∀ source, initialUpload w = Some source →
     let c := forEachServer net opts blob servers in
     initialUpload (c w).2 = Some source
     ∧ Forall (mirrorsFrom source (ms_signal opts)) (events c w))
  ∧ (let c := multiServerUpload net servers blob opts in
     match initialUpload (c w).2 with
     | Some source => Forall (mirrorsFrom source (ms_signal opts)) (events c w)
     | None => Forall (λ e, isMirror e = false) (events c w)
     end)
  ∧ (∀ server, initialUpload w = None →
       initialUpload (serverStep net opts blob server w).2 =
       match outcome (ViaHandlers.uploadBlob net server blob
                        (uploadOptions opts blob)) w with
       | Ok v => v
       | Throw _ => None
       end).
Proof.
  split_and!.
  - intros source Hi. by apply loop_keeps_initialUpload.
  - intros c; subst c.
    destruct (multi_run net servers blob opts w) as (-> & -> & _).
    pose proof (loop_mirrors net opts blob servers (started opts w)) as Hl.
    cbv zeta in Hl.
    destruct (initialUpload (forEachServer net opts blob servers _).2);
      by destruct Hl.
  - intros server Hi. rewrite step_sets_initialUpload. by rewrite Hi.
Qed.

(** The signal goes with every request for a copy. *)
Lemma loop_signalled opts blob servers w :
  Forall (signalled (ms_signal opts))
    (events (forEachServer net opts blob servers) w).
Proof.
  apply (loop_segment net opts blob (Forall (signalled (ms_signal opts)))
           (λ _, True)); try done.
  - intros. by apply Forall_app.
  - intros. by repeat constructor.
  - intros. by repeat constructor.
  - intros server source w1 _.
    destruct (mirror_in_run net opts blob server source w1)
      as (_ & _ & _ & _ & Hall & _).
    eapply Forall_impl; [exact Hall|].
    intros [req ?| | | |]; cbn; try done. by intros (_ & ? & _) _.
  - intros server w1.
    destruct (upload_in_run net opts blob server w1)
      as (_ & _ & _ & _ & Hall & _).
    eapply Forall_impl; [exact Hall|].
    intros [req ?| | | |]; cbn; try done. by intros [-> _].
Qed.

(** A whole run, as the steps it gets to. *)
Lemma run_described servers blob opts w :
  let c := multiServerUpload net servers blob opts in
  let steps := runSteps net opts blob servers (started opts w) in
  let outcomes :=
    map (λ step, (step.1, attemptOutcome net opts blob step)) steps in
  events c w = concat (map (stepEvents net opts blob) steps)
  ∧ map fst steps `prefix_of` servers
  ∧ (∀ s, s ∈ dom (results (c w).2) ↔ s ∈ successes outcomes)
  ∧ (∀ s v, results (c w).2 !! s = Some v → (s, Ok v) ∈ outcomes)
  ∧ (∀ s, s ∈ map fst steps → canParse s = true → s ∈ contacted (events c w))
  ∧ succeeded (events c w) =
      match ms_onUpload opts with Some _ => successes outcomes | None => [] end
  ∧ (ms_onError opts = None → reported (events c w) = [])
  ∧ (∀ m, outcome c w = Ok m → map fst steps = servers ∧ m = results (c w).2)
  ∧ (callbacksReturn opts →
       outcome c w = Ok (results (c w).2)
       ∧ (is_Some (ms_onError opts) →
            reported (events c w) = failures outcomes)).
Proof.
  intros c steps outcomes; subst c steps outcomes.
  destruct (multi_run net servers blob opts w) as (Hw & Hev & Hout).
  rewrite Hout, Hev, Hw.
  destruct (loop_described net opts blob servers (started opts w))
    as (H1 & H2 & H3 & H4 & H5 & H6 & H7 & H8 & H9).
  cbn [started results] in H3, H4. rewrite dom_empty_L in H3.
  split_and!; try done.
  - intros s. rewrite H3. set_solver.
  - intros s v Hl. destruct (H4 s v Hl) as [Hl'|]; [|done].
    by rewrite lookup_empty in Hl'.
  - intros m Hm.
    destruct (outcome (forEachServer net opts blob servers) (started opts w))
      as [[]|e] eqn:Eo; [|done].
    split; [by eapply H8|congruence].
  - intros Hcb. destruct (H9 Hcb) as [-> Hr]. done.
Qed.

(** C9 (as amended). The signal goes with every request for a copy. The
    loop itself never looks at it: a run is made of the steps of its servers,
    one after the other, whatever was aborted in them; every server that is
    a URL and gets its step is sent a request; a run that returns has gone
    through the whole list and returns the mapping as accumulated, and a run
    returns whenever the callbacks [onUpload] and [onError] that the caller
    gave return. The mapping holds the servers whose attempt gave a result,
    each with a result of one of its attempts. *)
Theorem signal_goes_with_the_mirrors servers blob opts w :
  let c := multiServerUpload net servers blob opts in
  let steps := runSteps net opts blob servers (started opts w) in
  let outcomes :=
    map (λ step, (step.1, attemptOutcome net opts blob step)) steps in
  Forall (signalled (ms_signal opts)) (events c w)
  ∧ events c w = concat (map (stepEvents net opts blob) steps)
  ∧ (∀ s, s ∈ map fst steps → canParse s = true → s ∈ contacted (events c w))
  ∧ (∀ m, outcome c w = Ok m → map fst steps = servers ∧ m = results (c w).2)
  ∧ (callbacksReturn opts → outcome c w = Ok (results (c w).2))
  ∧ (∀ s, s ∈ dom (results (c w).2) ↔ s ∈ successes outcomes)
  ∧ (∀ s v, results (c w).2 !! s = Some v → (s, Ok v) ∈ outcomes).
Proof.
  intros c steps outcomes.
  destruct (run_described servers blob opts w)
    as (H1 & _ & H3 & H4 & H5 & _ & _ & H8 & H9).
  split_and!; try done.
  - subst c. destruct (multi_run net servers blob opts w) as (_ & -> & _).
    apply loop_signalled.
  - intros Hcb. by destruct (H9 Hcb).
Qed.

(** C4 (as amended). A run is made of the steps of its servers, one after
    the other, and a failure of an attempt never gets out of its step. The
    keys of the mapping are the servers whose attempt gave a result, each
    with a result of one of its attempts, and [onUpload], when given, is
    called for exactly these, in order. A run that returns has gone through
    the whole list. When the callbacks that the caller gave return, the run
    returns the mapping, and [onError], when given, is called for exactly
    the attempts that failed with an [Error], in order and with that error:
    a failure that is not an [Error] is reported to nobody. When moreover
    the outside only throws [Error]s, [onError] is given and the list has no
    duplicate, a server of the list is absent from the mapping if and only
    if [onError] was called for it. *)
Theorem failures_are_reported_not_raised servers blob opts w :
  let c := multiServerUpload net servers blob opts in
  let steps := runSteps net opts blob servers (started opts w) in
  let outcomes :=
    map (λ step, (step.1, attemptOutcome net opts blob step)) steps in
  events c w = concat (map (stepEvents net opts blob) steps)
  ∧ map fst steps `prefix_of` servers
  ∧ (∀ s, s ∈ map fst steps → canParse s = true → s ∈ contacted (events c w))
  ∧ (∀ s, s ∈ dom (results (c w).2) ↔ s ∈ successes outcomes)
  ∧ (∀ s v, results (c w).2 !! s = Some v → (s, Ok v) ∈ outcomes)
  ∧ succeeded (events c w) =
      match ms_onUpload opts with Some _ => successes outcomes | None => [] end
  ∧ (∀ m, outcome c w = Ok m → map fst steps = servers ∧ m = results (c w).2)
  ∧ (callbacksReturn opts →
       outcome c w = Ok (results (c w).2)
       ∧ map fst steps = servers
       ∧ reported (events c w) =
           match ms_onError opts with
           | Some _ => failures outcomes
           | None => []
           end
       ∧ (onlyErrors net (ms_onPayment opts) (ms_onAuth opts) →
          is_Some (ms_onError opts) → NoDup servers →
          ∀ s, s ∈ servers →
            (s ∉ dom (results (c w).2) ↔ s ∈ failed (events c w)))).
Proof.
  intros c steps outcomes.
  destruct (run_described servers blob opts w)
    as (H1 & H2 & H3 & H4 & H5 & H6 & H7 & H8 & H9).
  fold c steps outcomes in H1, H2, H3, H4, H5, H6, H7, H8, H9.
  split_and!; try done.
  intros Hcb. destruct (H9 Hcb) as [Hout Hrep].
  destruct (H8 _ Hout) as [Hall _].
  assert (reported (events c w) =
          match ms_onError opts with
          | Some _ => failures outcomes
          | None => []
          end) as Hr.
  { destruct (ms_onError opts) eqn:Ee; [by apply Hrep|by apply H7]. }
  split_and!; try done.
  intros Hoe [f Hf] Hnd s Hs. rewrite H3, failed_reported, Hr, Hf.
  assert (outcomes.*1 = servers) as Hfst.
  { subst outcomes. rewrite <- Hall. rewrite <- list_fmap_compose.
    by apply list_fmap_ext. }
  apply absent_iff_failed; rewrite ?Hfst; try done.
  subst outcomes. apply Forall_fmap, Forall_forall. intros [s' w'] _ e.
  cbn. by apply attempt_throws_errors.
Qed.


End whole_runs.

(** ** Concrete runs *)

Section examples.
#[local] Existing Instance demo.

Lemma checks_answer (code : Z) (server : string) :
  checkedWith (checkAnswers code) server code.
Proof.
  intros t req Hm _. unfold checkAnswers, respond. rewrite Hm. by eexists.
Qed.

(** C1, as stated, fails. The server answers 401 to every check and accepts
    every [PUT]; the caller can sign. Neither form of [uploadBlob] sends a
    [PUT]: the commit is not retried once, it is not sent at all, and the form
    with handlers never calls the resolver. *)
Lemma a_401_is_never_retried :
  checkedWith (checkAnswers 401) "A" 401
  ∧ (∀ t req, method req = PUT →
       ∃ res, checkAnswers 401 t req = Ok res ∧ ok res = true)
  ∧ count isPut
      (events (ViaSwitch.uploadBlob (checkAnswers 401) "A" "abc" viaSwitch)
         emptyWorld) ≠ 1%nat
  ∧ count isPut
      (events (ViaHandlers.uploadBlob (checkAnswers 401) "A" "abc" viaHandlers)
         emptyWorld) ≠ 1%nat
  ∧ count isOnAuth
      (events (ViaHandlers.uploadBlob (checkAnswers 401) "A" "abc" viaHandlers)
         emptyWorld) ≠ 1%nat.
Proof.
  split; [apply checks_answer|]. split.
  - intros t req Hm. eexists. unfold checkAnswers. rewrite Hm. done.
  - by vm_compute.
Qed.

Lemma unauthenticated_check_is_terminal_witness :
  canParse "A" = true
  ∧ checkedWith (checkAnswers 401) "A" 401
  ∧ (let c := ViaSwitch.uploadBlob (checkAnswers 401) "A" "abc" viaSwitch in
     length (events c emptyWorld) = 2%nat
     ∧ outcome c emptyWorld = Throw (Error "Error" "Unable to authenticate")).
Proof.
  split; [reflexivity|]. split; [apply checks_answer|].
  destruct (proj1 (unauthenticated_check_is_terminal (checkAnswers 401) "A"
                     "abc" None None (Some pays) (Some (signsFor "*"))
                     emptyWorld eq_refl (checks_answer 401 "A")))
    as (res & _ & Hev & Hout).
  split; [exact (f_equal length Hev)|exact Hout].
Defined.

(** C2, as stated, fails. The server answers 403 to every check. The form
    with handlers takes it as the request for a credential: it calls the
    resolver, sends the blob with the credential, then once more, and
    succeeds. The form with the [switch] fails, but has called the resolver,
    before the check. *)
Lemma a_403_asks_for_the_credential :
  checkedWith (checkAnswers 403) "A" 403
  ∧ (let c := ViaHandlers.uploadBlob (checkAnswers 403) "A" "abc" viaHandlers in
     outcome c emptyWorld = Ok (Some "https://A/abc")
     ∧ count isOnAuth (events c emptyWorld) = 1%nat
     ∧ count isPut (events c emptyWorld) = 2%nat)
  ∧ (let c := ViaSwitch.uploadBlob (checkAnswers 403) "A" "abc" viaSwitch in
     outcome c emptyWorld = Throw (Error "Error" "Unauthorized")
     ∧ count isOnAuth (events c emptyWorld) = 1%nat).
Proof.
  split; [apply checks_answer|]. by vm_compute.
Qed.

Lemma forbidden_check_witness :
  canParse "A" = true
  ∧ checkedWith (checkAnswers 403) "A" 403
  ∧ (let c := ViaSwitch.uploadBlob (checkAnswers 403) "A" "abc" viaSwitch in
     length (events c emptyWorld) = 2%nat
     ∧ outcome c emptyWorld = Throw (Error "Error" "Unauthorized")).
Proof.
  split; [reflexivity|]. split; [apply checks_answer|].
  destruct (proj1 (forbidden_check (checkAnswers 403) "A" "abc" None None
                     (Some pays) (Some (signsFor "*")) emptyWorld eq_refl
                     (checks_answer 403 "A")))
    as (res & _ & Hev & Hout).
  split; [exact (f_equal length Hev)|exact Hout].
Defined.

(** C7, as stated, fails. The check passes; the [PUT] that follows carries
    no header in the form with handlers, and in the form with the [switch] it
    carries the hash but not the type, which is known. *)
Lemma the_commit_carries_no_hash :
  forallb (putCarriesCheckHeaders "abc")
    (events (ViaHandlers.uploadBlob (checkAnswers 200) "A" "abc" viaHandlers)
       emptyWorld) = false
  ∧ forallb (putCarriesCheckHeaders "abc")
      (events (ViaSwitch.uploadBlob (checkAnswers 200) "A" "abc" viaSwitch)
         emptyWorld) = false.
Proof. by vm_compute. Qed.

(** C8, as stated, fails. With the [switch], a server that asks for nothing
    still gets the credential: the resolver is the first thing called. With
    handlers, the resolver is called on a 403, and no 401 was seen. *)
Lemma credential_before_any_401 :
  (let c := ViaSwitch.uploadBlob (checkAnswers 200) "A" "abc" viaSwitch in
   credentialAfter 401 false (events c emptyWorld) = false
   ∧ head (events c emptyWorld) = Some (EvOnAuth "A" "abc" (Ok "*")))
  ∧ (let c := ViaHandlers.uploadBlob (checkAnswers 403) "A" "abc" viaHandlers in
     credentialAfter 401 false (events c emptyWorld) = false).
Proof. by vm_compute. Qed.

(** C4, as stated, fails. A server whose resolver rejects with a value that
    is not an [Error] is absent from the mapping and [onError] is not called
    for it; a server listed twice, accepted then refused, is in the mapping
    and [onError] was called for it; and when [onError] throws, the run
    raises what it threw and the servers that are left are not visited. *)
Lemma a_failure_can_go_unreported :
  (let c := multiServerUpload (checkAnswers 403) ["B"] "abc"
              (toldOfAll None declines) in
   results (c emptyWorld).2 !! "B" = None
   ∧ failed (events c emptyWorld) = [])
  ∧ (let c := multiServerUpload failsAfterFirst ["A"; "A"] "abc"
                (toldOfAll None (signsFor "*")) in
     results (c emptyWorld).2 !! "A" = Some (Some "https://A/abc")
     ∧ failed (events c emptyWorld) = ["A"])
  ∧ (let c := multiServerUpload (checkAnswers 500) ["A"; "B"] "abc"
                (mkMultiOptions None None (Some pays) (Some (signsFor "*"))
                   (Some noted) (Some complains)) in
     outcome c emptyWorld = Throw (Error "Error" "told of a failure")
     ∧ contacted (events c emptyWorld) = ["A"]).
Proof. by vm_compute. Qed.

Lemma failures_are_reported_not_raised_witness :
  let opts := toldOfAll None (signsFor "*") in
  let c := multiServerUpload failsAfterFirst ["A"; "B"] "abc" opts in
  callbacksReturn opts
  ∧ outcome c emptyWorld = Ok (results (c emptyWorld).2)
  ∧ dom (results (c emptyWorld).2) = {[ "A" ]}
  ∧ failed (events c emptyWorld) = ["B"].
Proof.
  intros opts c.
  assert (callbacksReturn opts) as Hcb.
  { split; intros f Hf; by injection Hf as <-. }
  split; [exact Hcb|].
  destruct (failures_are_reported_not_raised failsAfterFirst ["A"; "B"] "abc"
              opts emptyWorld) as (_ & _ & _ & _ & _ & _ & _ & Hret).
  split; [exact (proj1 (Hret Hcb))|by vm_compute].
Defined.

(** C9, as stated, fails. The signal has fired before the run. The uploads
    carry no signal; the mirror to B is rejected, yet B is then uploaded to,
    C is visited as well, and the three servers end up in the mapping. *)
Lemma the_loop_ignores_the_signal :
  let c := multiServerUpload aborted ["A"; "B"; "C"] "abc"
             (toldOfAll (Some (Signal 0)) (signsFor "*")) in
  forallb (carriesSignal (Some (Signal 0))) (events c emptyWorld) = false
  ∧ count rejected (events c emptyWorld) = 2%nat
  ∧ contacted (events c emptyWorld) = ["A"; "A"; "B"; "B"; "B"; "C"; "C"; "C"]
  ∧ succeeded (events c emptyWorld) = ["A"; "B"; "C"].
Proof. by vm_compute. Qed.

Lemma signal_goes_with_the_mirrors_witness :
  let c := multiServerUpload aborted ["A"; "B"; "C"] "abc"
             (toldOfAll (Some (Signal 0)) (signsFor "*")) in
  Forall (signalled (Some (Signal 0))) (events c emptyWorld).
Proof.
  exact (proj1 (signal_goes_with_the_mirrors aborted ["A"; "B"; "C"] "abc"
                  (toldOfAll (Some (Signal 0)) (signsFor "*")) emptyWorld)).
Defined.


(** C6, as stated, fails. A server answers the check with a 402 that holds
    no request for a payment: the resolver, which the caller gave, is not
    called. Another answers 402 to everything: the resolver is called for
    the check, and not again for the 402 that answers the [PUT] with the
    token. *)
Lemma a_402_can_go_unpaid :
  (let c := multiServerUpload unreadable ["A"] "abc"
              (toldOfAll None (signsFor "*")) in
   count (answered 402) (events c emptyWorld) = 1%nat
   ∧ count isOnPayment (events c emptyWorld) = 0%nat)
  ∧ (let c := multiServerUpload insatiable ["A"] "abc"
                (toldOfAll None (signsFor "*")) in
     count (answered 402) (events c emptyWorld) = 2%nat
     ∧ count isOnPayment (events c emptyWorld) = 1%nat).
Proof. by vm_compute. Qed.

(** C6, on two servers that both want to be paid: two calls of the
    resolver, and the token of each goes to the server it was asked for. *)
Example two_challenges_two_payments :
  let c := multiServerUpload paid ["A"; "B"] "abc"
             (toldOfAll None (signsFor "*")) in
  paidFor (events c emptyWorld) = [("A", "creq"); ("B", "creq")]
  ∧ spent (events c emptyWorld) = [("A", "cashu-for-A"); ("B", "cashu-for-B")].
Proof. by vm_compute. Qed.

(** C5, on a cache of three: the first that matches is returned. *)
Example the_first_match :
  firstMatch "B" "abc" ["A"; "*"; "B"] = Some "*".
Proof. reflexivity. Qed.

End examples.

(** ** More on one upload *)

Ltac red_x :=
  red_m;
  cbn [isFetch thrownBy about grantedCredentials sentWhereItBelongs
       askedWhenNeeded omap list_omap app length List.filter count
       orb andb negb];
  red_m.

Section more_on_one_upload.
Context `{Externals} (net : Network).

(** X1. The requests of an upload. Every request goes to [/upload] of the
    server and carries the caller's signal; the check has no body and every
    [PUT] has the blob. The form with handlers opens with the check and
    sends at most two [PUT]s after it; the form with the [switch] sends at
    most the check and one [PUT]. The form with handlers calls at most one
    resolver, once; the form with the [switch] calls each at most once.
    When the server is not a URL nothing is sent at all. *)
Theorem requests_of_an_upload server blob signal auth onPayment onAuth w :
  (let c := ViaHandlers.uploadBlob net server blob
              (ViaHandlers.callerOptions signal auth onPayment onAuth) in
   (if canParse server then
      ∃ res rest,
        events c w =
        EvFetch (mkRequest HEAD (mkURL "/upload" server) signal
                   (ViaHandlers.checkHeaders blob) NoBody) res :: rest
        ∧ count isPut rest = count isFetch rest
    else events c w = [])
   ∧ Forall (uploadRequest server blob signal) (events c w)
   ∧ (count isFetch (events c w) ≤ 3)%nat
   ∧ (count isOnAuth (events c w) + count isOnPayment (events c w) ≤ 1)%nat)
  ∧ (let c := ViaSwitch.uploadBlob net server blob
                (ViaSwitch.callerOptions signal auth onPayment onAuth) in
     Forall (uploadRequest server blob signal) (events c w)
     ∧ (count isFetch (events c w) ≤ 2)%nat
     ∧ (count isPut (events c w) ≤ 1)%nat
     ∧ (count isOnAuth (events c w) ≤ 1)%nat
     ∧ (count isOnPayment (events c w) ≤ 1)%nat).
Proof.
  split.
  - intros c; subst c. run_upload_of w.
    all: split_and!;
      [ requests; first [done | by eexists _, _]
      | each_event; by red_x | red_x; lia..].
  - intros c; subst c. run_upload_of w.
    all: split_and!; [each_event; by red_x | red_x; lia..].
Qed.

(** X2. A check answered 402, in the form with handlers. Without a payment
    resolver the upload fails with "Missing payment handler" and nothing is
    sent. With one, the module of the tokens is loaded and the request for
    the payment is read from the headers of the 402: when either fails, the
    upload fails with that error, the resolver is not called and nothing is
    sent. Otherwise the resolver is called once, with the request read, and
    its token goes alone on a [PUT]. When that [PUT] is accepted the blob is
    sent once more, without the token, and the result is the answer to this
    second [PUT]; when it is refused, the upload fails with its status. The
    credential resolver is never called. *)
Theorem paid_upload_via_handlers server blob signal auth onPayment onAuth w :
  canParse server = true →
  checkedWith net server 402 →
  let c := ViaHandlers.uploadBlob net server blob
             (ViaHandlers.callerOptions signal auth onPayment onAuth) in
  let url := mkURL "/upload" server in
  let check := EvFetch (mkRequest HEAD url signal (ViaHandlers.checkHeaders blob)
                          NoBody) in
  let put token := EvFetch (mkRequest PUT url signal
                              {[ "X-Cashu" := getEncodedToken token ]}
                              (BlobBody blob)) in
  let free := EvFetch (mkRequest PUT url signal ∅ (BlobBody blob)) in
  count isOnAuth (events c w) = 0%nat
  ∧ ∃ res, status res = 402 ∧
    match onPayment with
    | None =>
        events c w = [check (Ok res)]
        ∧ outcome c w = Throw (Error "Error" "Missing payment handler")
    | Some _ =>
        match importCashu, getPaymentRequestFromHeaders (res_headers res) with
        | Some (name, message), _ | None, inr (name, message) =>
            events c w = [check (Ok res)]
            ∧ outcome c w = Throw (Error name message)
        | None, inl request =>
            let pay := EvOnPayment server blob request in
            (∃ e, events c w = [check (Ok res); pay (Throw e)]
                  ∧ outcome c w = Throw e)
            ∨ (∃ token e,
                 events c w = [check (Ok res); pay (Ok token);
                               put token (Throw e)]
                 ∧ outcome c w = Throw e)
            ∨ (∃ token paid,
                 events c w = [check (Ok res); pay (Ok token);
                               put token (Ok paid)]
                 ∧ ok paid = false
                 ∧ outcome c w
                   = Throw (HTTPError (status paid) (res_body paid)))
            ∨ (∃ token paid again,
                 events c w = [check (Ok res); pay (Ok token);
                               put token (Ok paid); free again]
                 ∧ ok paid = true
                 ∧ outcome c w = match again with
                                 | Ok res' => fromResponse res'
                                 | Throw e => Throw e
                                 end)
        end
    end.
Proof.
  intros Hu Hc c url check put free; subst c url check put free.
  cbv beta.
  run_upload_of w.
  all: split; [done|].
  all: eexists; split; [eassumption|].
  all: requests; cbv zeta; pick.
Qed.

(** X3. A check answered 402, in the form with the [switch]. Without a
    payment resolver the upload fails with "Missing payment handler" and no
    [PUT] is sent. With one, the module of the tokens is loaded and the
    request for the payment is read from the headers of the 402: when either
    fails, the upload fails with that error, the resolver is not called and
    no [PUT] is sent. Otherwise the resolver is called once, and the single
    [PUT] carries the token next to the hash and the credential; the result
    is the answer to that [PUT], so a second 402 is a failure and the
    resolver is not called again. *)
Theorem paid_upload_via_switch server blob signal auth onPayment onAuth w :
  canParse server = true →
  checkedWith net server 402 →
  let c := ViaSwitch.uploadBlob net server blob
             (ViaSwitch.callerOptions signal auth onPayment onAuth) in
  let url := mkURL "/upload" server in
  match credential auth onAuth server blob (trace w) with
  | Some (Throw e) =>
      outcome c w = Throw e ∧ count isFetch (events c w) = 0%nat
  | cred =>
      let a := match cred with Some (Ok a) => Some a | _ => None end in
      let before :=
        match auth, cred with
        | None, Some r => [EvOnAuth server blob r]
        | _, _ => []
        end in
      let check := EvFetch (mkRequest HEAD url signal
                              (ViaSwitch.checkHeaders blob
                                 (ViaSwitch.uploadHeaders blob a)) NoBody) in
      let put token :=
        EvFetch (mkRequest PUT url signal
                   (<[ "X-Cashu" := getEncodedToken token ]>
                      (ViaSwitch.uploadHeaders blob a)) (BlobBody blob)) in
      ∃ res, status res = 402 ∧
        match onPayment with
        | None =>
            events c w = before ++ [check (Ok res)]
            ∧ outcome c w = Throw (Error "Error" "Missing payment handler")
        | Some _ =>
            match importCashu,
                  getPaymentRequestFromHeaders (res_headers res) with
            | Some (name, message), _ | None, inr (name, message) =>
                events c w = before ++ [check (Ok res)]
                ∧ outcome c w = Throw (Error name message)
            | None, inl request =>
                let pay := EvOnPayment server blob request in
                (∃ e, events c w = before ++ [check (Ok res); pay (Throw e)]
                      ∧ outcome c w = Throw e)
                ∨ (∃ token paid,
                     events c w = before ++ [check (Ok res); pay (Ok token);
                                             put token paid]
                     ∧ outcome c w = match paid with
                                     | Ok res' => fromResponse res'
                                     | Throw e => Throw e
                                     end)
            end
        end
  end.
Proof.
  intros Hu Hc c url; subst c url. cbv beta.
  run_upload_of w.
  all: try (split; [done|red_x; lia]).
  all: eexists; (split; [eassumption|]).
  all: requests; cbv zeta; pick.
Qed.

(** X4. A check answered with a status that has no handler, in the form with
    handlers. When it is a success the blob is sent, once and without a
    header, no resolver is called, and the result is the answer to that
    [PUT]. When it is not, the upload fails with the [HTTPError] of the
    check, and nothing else is sent or asked. *)
Theorem a_check_without_a_challenge server blob signal auth onPayment onAuth
    code w :
  canParse server = true →
  checkedWith net server code →
  code ≠ 402 → code ≠ 403 →
  let c := ViaHandlers.uploadBlob net server blob
             (ViaHandlers.callerOptions signal auth onPayment onAuth) in
  let url := mkURL "/upload" server in
  let check := EvFetch (mkRequest HEAD url signal (ViaHandlers.checkHeaders blob)
                          NoBody) in
  ∃ res, status res = code ∧
    if bool_decide (200 ≤ code ≤ 299) then
      ∃ sent,
        events c w = [check (Ok res);
                      EvFetch (mkRequest PUT url signal ∅ (BlobBody blob)) sent]
        ∧ outcome c w = match sent with
                        | Ok res' => fromResponse res'
                        | Throw e => Throw e
                        end
    else
      events c w = [check (Ok res)]
      ∧ outcome c w = Throw (HTTPError code (res_body res)).
Proof.
  intros Hu Hc H402 H403 c url check; subst c url check. cbv beta.
  run_upload_of w.
  all: eexists; (split; [eassumption|]).
  all: match goal with Hs : status _ = _ |- _ => rewrite <- Hs end.
  all: responses; shape.
Qed.

(** X5. A check answered 403, in the form with handlers. The credential is
    [opts.auth] when there is one, and then the resolver is not called;
    otherwise it is what [onAuth] gives, called once; without either the
    upload fails with "Missing auth handler" and nothing is sent. The blob
    goes with the credential alone on a [PUT]; when that [PUT] is accepted
    the blob is sent once more, without the credential, and the result is
    the answer to this second [PUT]. The payment resolver is never called. *)
Theorem authorized_upload_via_handlers server blob signal auth onPayment
    onAuth w :
  canParse server = true →
  checkedWith net server 403 →
  let c := ViaHandlers.uploadBlob net server blob
             (ViaHandlers.callerOptions signal auth onPayment onAuth) in
  let url := mkURL "/upload" server in
  let check := EvFetch (mkRequest HEAD url signal (ViaHandlers.checkHeaders blob)
                          NoBody) in
  let put a := EvFetch (mkRequest PUT url signal
                          {[ "Authorization" := encodeAuthorizationHeader a ]}
                          (BlobBody blob)) in
  let free := EvFetch (mkRequest PUT url signal ∅ (BlobBody blob)) in
  let sent a before :=
    (∃ e, events c w = before ++ [put a (Throw e)] ∧ outcome c w = Throw e)
    ∨ (∃ res', events c w = before ++ [put a (Ok res')]
               ∧ ok res' = false
               ∧ outcome c w = Throw (HTTPError (status res') (res_body res')))
    ∨ (∃ res' again,
         events c w = before ++ [put a (Ok res'); free again]
         ∧ ok res' = true
         ∧ outcome c w = match again with
                         | Ok res'' => fromResponse res''
                         | Throw e => Throw e
                         end) in
  count isOnPayment (events c w) = 0%nat
  ∧ ∃ res, status res = 403 ∧
    match auth, onAuth with
    | Some a, _ => sent a [check (Ok res)]
    | None, Some _ =>
        (∃ e, events c w = [check (Ok res); EvOnAuth server blob (Throw e)]
              ∧ outcome c w = Throw e)
        ∨ (∃ a, sent a [check (Ok res); EvOnAuth server blob (Ok a)])
    | None, None =>
        events c w = [check (Ok res)]
        ∧ outcome c w = Throw (Error "Error" "Missing auth handler")
    end.
Proof.
  intros Hu Hc c url check put free sent; subst c url check put free sent.
  cbv beta.
  run_upload_of w.
  all: split; [done|].
  all: eexists; split; [eassumption|].
  all: cbn [app]; pick.
Qed.

(** X6. The checks of the two forms agree: the form with the [switch] sends
    the headers of the form with handlers, and the credential with them when
    it has one. The type of the content is sent when it is known, and never
    as an empty string. *)
Theorem the_checks_agree blob a :
  ViaSwitch.checkHeaders blob (ViaSwitch.uploadHeaders blob a)
  = match a with
    | Some a => <[ "Authorization" := encodeAuthorizationHeader a ]>
                  (ViaHandlers.checkHeaders blob)
    | None => ViaHandlers.checkHeaders blob
    end
  ∧ ViaHandlers.checkHeaders blob !! "X-Content-Type"
    = (if truthy (getBlobType blob) then getBlobType blob else None)
  ∧ ViaHandlers.checkHeaders blob !! "X-Content-Type" ≠ Some "".
Proof.
  unfold ViaSwitch.checkHeaders, ViaSwitch.uploadHeaders,
    ViaHandlers.checkHeaders.
  destruct (getBlobType blob) as [[|c s]|] eqn:Ht; cbn [truthy default];
    destruct a as [a|]; split_and!; try done.
  all: try (apply map_eq; intros k;
            repeat (destruct (decide (k = "Authorization")) as [->|];
                    destruct (decide (k = "X-Content-Type")) as [->|];
                    destruct (decide (k = "X-Content-Length")) as [->|];
                    destruct (decide (k = "X-SHA-256")) as [->|]);
            by simplify_map_eq).
Qed.

(** X7. In the form with the [switch] the answer to the check is looked at
    for 401, 402 and 403 only: on any other status, a 404 or a 500 as well
    as a 200, the blob is sent, and the result is the answer to the [PUT]. *)
Theorem switch_ignores_other_statuses server blob signal auth onPayment
    onAuth code w :
  canParse server = true →
  checkedWith net server code →
  code ≠ 401 → code ≠ 402 → code ≠ 403 →
  let c := ViaSwitch.uploadBlob net server blob
             (ViaSwitch.callerOptions signal auth onPayment onAuth) in
  let url := mkURL "/upload" server in
  match credential auth onAuth server blob (trace w) with
  | Some (Throw e) =>
      outcome c w = Throw e ∧ count isFetch (events c w) = 0%nat
  | cred =>
      let a := match cred with Some (Ok a) => Some a | _ => None end in
      let before :=
        match auth, cred with
        | None, Some r => [EvOnAuth server blob r]
        | _, _ => []
        end in
      ∃ res sent,
        status res = code
        ∧ events c w =
            before ++
            [EvFetch (mkRequest HEAD url signal
                        (ViaSwitch.checkHeaders blob
                           (ViaSwitch.uploadHeaders blob a)) NoBody) (Ok res);
             EvFetch (mkRequest PUT url signal
                        (ViaSwitch.uploadHeaders blob a) (BlobBody blob)) sent]
        ∧ outcome c w = match sent with
                        | Ok res' => fromResponse res'
                        | Throw e => Throw e
                        end
  end.
Proof.
  intros Hu Hc H401 H402 H403 c url; subst c url. cbv beta.
  run_upload_of w.
  all: try congruence.
  all: try (split; [done|red_x; lia]).
  all: shape.
Qed.

(** X8. The result of an upload is read off the answer to its last [PUT]: an
    upload that ends on an answered [PUT] returns what that answer holds, or
    fails with its status; and an upload returns a descriptor only so. *)
Theorem the_result_is_the_last_answer server blob signal auth onPayment
    onAuth w :
  (let c := ViaHandlers.uploadBlob net server blob
              (ViaHandlers.callerOptions signal auth onPayment onAuth) in
   (∀ req res, last (events c w) = Some (EvFetch req (Ok res)) →
      method req = PUT → outcome c w = fromResponse res)
   ∧ (∀ d, outcome c w = Ok d →
        ∃ req res, last (events c w) = Some (EvFetch req (Ok res))
                   ∧ method req = PUT ∧ fromResponse res = Ok d))
  ∧ (let c := ViaSwitch.uploadBlob net server blob
                (ViaSwitch.callerOptions signal auth onPayment onAuth) in
     (∀ req res, last (events c w) = Some (EvFetch req (Ok res)) →
        method req = PUT → outcome c w = fromResponse res)
     ∧ (∀ d, outcome c w = Ok d →
          ∃ req res, last (events c w) = Some (EvFetch req (Ok res))
                     ∧ method req = PUT ∧ fromResponse res = Ok d)).
Proof.
  split.
  - intros c; subst c. run_upload_of w.
    all: split; [intros ? ? [=] ?; simplify_eq; responses; done
                |intros ? [=]; simplify_eq; shape].
  - intros c; subst c. run_upload_of w.
    all: split; [intros ? ? [=] ?; simplify_eq; responses; done
                |intros ? [=]; simplify_eq; shape].
Qed.

(** X9. A rejection ends the upload. When the network rejects a request, or
    a resolver rejects, nothing more is sent or asked, and the upload fails
    with the very value of the rejection. *)
Theorem a_rejection_ends_the_upload server blob signal auth onPayment
    onAuth w :
  (let c := ViaHandlers.uploadBlob net server blob
              (ViaHandlers.callerOptions signal auth onPayment onAuth) in
   Forall (λ e, thrownBy e = None) (removelast (events c w))
   ∧ ∀ e x, last (events c w) = Some e → thrownBy e = Some x →
       outcome c w = Throw x)
  ∧ (let c := ViaSwitch.uploadBlob net server blob
                (ViaSwitch.callerOptions signal auth onPayment onAuth) in
     Forall (λ e, thrownBy e = None) (removelast (events c w))
     ∧ ∀ e x, last (events c w) = Some e → thrownBy e = Some x →
         outcome c w = Throw x).
Proof.
  split.
  - intros c; subst c. run_upload_of w.
    all: split; [cbn [removelast]; each_event; by red_x
                |intros ? ? [= <-] Ht; cbn [thrownBy] in Ht; congruence].
  - intros c; subst c. run_upload_of w.
    all: split; [cbn [removelast]; each_event; by red_x
                |intros ? ? [= <-] Ht; cbn [thrownBy] in Ht; congruence].
Qed.

End more_on_one_upload.

(** ** More on the loop *)

Section more_on_the_loop.
Context `{Externals} (net : Network).

(** How the step for one server ends: only a rejection by [onError] gets
    out of it, and the server is recorded just before [onUpload] is called. *)
Lemma step_ends opts blob server w :
  let c := serverStep net opts blob server in
  (∀ x, outcome c w = Throw x →
     ∃ err, last (events c w) = Some (EvOnError server blob err (Throw x))
            ∧ instanceofError err = true)
  ∧ (ms_onError opts = None → outcome c w = Ok tt)
  ∧ ((results (c w).2 = results w ∧ succeeded (events c w) = [])
     ∨ (∃ v, results (c w).2 = <[ server := v ]> (results w)
             ∧ succeeded (events c w) =
                 match ms_onUpload opts with
                 | Some _ => [server]
                 | None => []
                 end)).
Proof.
  intros c; subst c.
  assert (∀ w1, succeeded (events (ViaHandlers.uploadBlob net server blob
                                     (uploadOptions opts blob)) w1) = [])
    as Hup.
  { intros w1.
    destruct (upload_in_run net opts blob server w1)
      as (_ & _ & _ & _ & Hall & _).
    by apply quiet_upload in Hall as (? & _). }
  assert (∀ source w1,
            succeeded (events (mirrorBlob net server source
                                 (mirrorOptions opts blob)) w1) = []) as Hmi.
  { intros source w1.
    destruct (mirror_in_run net opts blob server source w1)
      as (_ & _ & _ & _ & Hall & _).
    by apply quiet_mirror in Hall as (? & _). }
  hide (serverStep net opts blob server w).
  unfold serverStep. exec; unhide; red_m; sub_runs; tidy.
  all: repeat match goal with
       | Hs : events (ViaHandlers.uploadBlob _ _ _ _) ?w1 = ?seg |- _ =>
           let Hq := fresh "Hq" in
           pose proof (Hup w1) as Hq; rewrite Hs in Hq; clear Hs
       | Hs : events (mirrorBlob _ _ ?source _) ?w1 = ?seg |- _ =>
           let Hq := fresh "Hq" in
           pose proof (Hmi source w1) as Hq; rewrite Hs in Hq; clear Hs
       end.
  all: split_and!;
    [ intros x Hx;
      first [ discriminate Hx
            | rewrite Hx; eexists;
              split; [rewrite ?last_app; reflexivity|eassumption] ]
    | intros; repeat match goal with u : () |- _ => destruct u end;
      try done; try congruence
    | rewrite ?succeeded_app;
      repeat match goal with
             | Hq : succeeded _ = [] |- _ => rewrite Hq; clear Hq
             end;
      first [ left; split; [reflexivity|done]
            | right; eexists; split; [reflexivity|done] ] ].
Qed.

(** The same over the whole loop. *)
Lemma loop_ends opts blob servers w :
  let c := forEachServer net opts blob servers in
  (∀ x, outcome c w = Throw x →
     ∃ s err, s ∈ servers ∧ instanceofError err = true
              ∧ last (events c w) = Some (EvOnError s blob err (Throw x)))
  ∧ (ms_onError opts = None → outcome c w = Ok tt)
  ∧ succeeded (events c w) `sublist_of` servers
  ∧ dom (results w) ∪ list_to_set (succeeded (events c w))
      ⊆ dom (results (c w).2)
  ∧ dom (results (c w).2) ⊆ dom (results w) ∪ list_to_set servers
  ∧ (is_Some (ms_onUpload opts) →
       dom (results (c w).2)
       = dom (results w) ∪ list_to_set (succeeded (events c w))).
Proof.
  intros c; subst c. revert w.
  induction servers as [|server rest IH]; intros w.
  - unfold events, appended, outcome. cbn. rewrite drop_trace_nil. cbn.
    split_and!; try done; set_solver.
  - cbn [forEachServer].
    pose proof (step_extends net opts blob server w) as Hex. cbv zeta in Hex.
    rewrite (events_bind _ _ _ Hex)
      by (intros _ w1; apply (loop_extends net opts blob rest w1)).
    destruct (step_ends opts blob server w) as (Hthrow & Hnone & Hrec).
    unfold outcome, bind in *.
    destruct (serverStep net opts blob server w) as [[[]|e] w1];
      cbn [fst snd] in *.
    + destruct (IH w1) as (Hthrow1 & Hnone1 & Hsub & Hlow & Hup & Hdom).
      rewrite succeeded_app, last_app, list_to_set_app_L.
      split_and!.
      * intros x Hx. destruct (Hthrow1 x Hx) as (s & err & Hs & He & Hl).
        exists s, err. rewrite Hl. split_and!; try done.
        apply elem_of_cons. auto.
      * done.
      * destruct Hrec as [[_ ->]|(v & _ & ->)]; [by apply sublist_cons|].
        destruct (ms_onUpload opts); [by apply sublist_skip|by apply sublist_cons].
      * destruct Hrec as [[Hr ->]|(v & Hr & Hs)]; rewrite Hr in Hlow.
        -- by rewrite list_to_set_nil, (left_id_L ∅ (∪)).
        -- rewrite dom_insert_L in Hlow. rewrite Hs.
           destruct (ms_onUpload opts); cbn; set_solver.
      * destruct Hrec as [[Hr _]|(v & Hr & _)]; rewrite Hr in Hup.
        -- cbn. set_solver.
        -- rewrite dom_insert_L in Hup. cbn. set_solver.
      * intros Hsome. rewrite (Hdom Hsome).
        destruct Hrec as [[-> ->]|(v & -> & ->)].
        -- by rewrite list_to_set_nil, (left_id_L ∅ (∪)).
        -- destruct Hsome as [f ->]. rewrite dom_insert_L. cbn. set_solver.
    + rewrite app_nil_r.
      split_and!.
      * intros x Hx. destruct (Hthrow x Hx) as (err & Hl & He).
        exists server, err. split_and!; try done. apply elem_of_cons. auto.
      * done.
      * destruct Hrec as [[_ ->]|(v & _ & ->)]; [apply sublist_nil_l|].
        destruct (ms_onUpload opts);
          [apply sublist_skip|apply sublist_cons]; apply sublist_nil_l.
      * destruct Hrec as [[-> ->]|(v & -> & ->)]; [set_solver|].
        rewrite dom_insert_L. destruct (ms_onUpload opts); cbn; set_solver.
      * destruct Hrec as [[-> _]|(v & -> & _)]; [set_solver|].
        rewrite dom_insert_L. cbn. set_solver.
      * intros [f Hf]. destruct Hrec as [[-> ->]|(v & -> & ->)]; [set_solver|].
        rewrite Hf, dom_insert_L. cbn. set_solver.
Qed.

(** X10. Only [onError] can make [multiServerUpload] fail. Whatever the
    upload, the mirror, the resolvers and [onUpload] throw is caught; when
    the run fails, the last thing that happened is a call of [onError] for a
    server of the list, about an [Error], and the run fails with what that
    call threw. Without an [onError] the run always returns the mapping. *)
Theorem only_onError_ends_the_run servers blob opts w :
  let c := multiServerUpload net servers blob opts in
  (∀ x, outcome c w = Throw x →
     ∃ s err, s ∈ servers ∧ instanceofError err = true
              ∧ last (events c w) = Some (EvOnError s blob err (Throw x)))
  ∧ (ms_onError opts = None → outcome c w = Ok (results (c w).2)).
Proof.
  intros c; subst c.
  destruct (multi_run net servers blob opts w) as (Hw & Hev & Hout).
  destruct (loop_ends opts blob servers (started opts w))
    as (Hthrow & Hnone & _).
  rewrite Hout, Hev. split.
  - intros x Hx. apply Hthrow. clear -Hx.
    destruct (outcome (forEachServer net opts blob servers) (started opts w));
      [discriminate Hx|by injection Hx as ->].
  - intros Hn. by rewrite (Hnone Hn).
Qed.

(** X11. The keys of the mapping. They are servers of the list, and every
    server [onUpload] was called for is among them: the server is recorded
    before [onUpload] is called, so it stays in the mapping when [onUpload]
    throws. When [onUpload] is configured the keys are exactly the servers
    it was called for, whatever the callbacks do. The mapping returned is
    the one accumulated. *)
Theorem keys_of_the_mapping servers blob opts w :
  let c := multiServerUpload net servers blob opts in
  (∀ s, s ∈ dom (results (c w).2) → s ∈ servers)
  ∧ succeeded (events c w) `sublist_of` servers
  ∧ (∀ s b r, EvOnUpload s b r ∈ events c w → s ∈ dom (results (c w).2))
  ∧ (is_Some (ms_onUpload opts) →
       ∀ s, s ∈ dom (results (c w).2) ↔ s ∈ succeeded (events c w))
  ∧ (∀ m, outcome c w = Ok m → m = results (c w).2).
Proof.
  intros c; subst c.
  destruct (multi_run net servers blob opts w) as (Hw & Hev & Hout).
  destruct (loop_ends opts blob servers (started opts w))
    as (_ & _ & Hsub & Hlow & Hup & Hdom).
  rewrite Hout, Hev, Hw. cbn [started results] in *.
  rewrite dom_empty_L in *.
  split_and!.
  - intros s Hs. apply Hup in Hs. set_solver.
  - done.
  - intros s b r Hin. apply Hlow. apply elem_of_union_r, elem_of_list_to_set.
    unfold succeeded. apply list_elem_of_omap. by exists (EvOnUpload s b r).
  - intros Hsome s. rewrite (Hdom Hsome). set_solver.
  - intros m.
    destruct (outcome (forEachServer net opts blob servers) _); congruence.
Qed.

End more_on_the_loop.

(** ** More on the uploads and the mirrors of the loop *)

Section a_credential_found.
Context `{Externals}.

Lemma firstMatch_first_matches server blob auths auth :
  firstMatch server blob auths = Some auth →
  doseAuthMatchUpload auth server blob = true.
Proof. by intros (? & ? & _ & _ & ?)%firstMatch_first. Qed.

End a_credential_found.

(** The leaves of a run of the loop: where a credential came from. *)
Ltac belongs :=
  repeat lazymatch goal with
  | |- True => exact I
  | |- _ ∧ _ => split
  | |- ∃ a, encodeAuthorizationHeader _ = encodeAuthorizationHeader a ∧ _ =>
      eexists; split; [reflexivity|];
      first [ left; eapply firstMatch_first_matches; eassumption
            | right; apply list_elem_of_here ]
  | |- Forall _ _ => by apply firstMatch_none
  end.

(** The leaves of a run of the loop: nothing was paid or authorized that
    could not be. *)
Ltac unresolved :=
  let Hp := fresh "Hp" in
  let Ha := fresh "Ha" in
  let Hc := fresh "Hc" in
  split; [intros Hp|intros Ha Hc];
  try congruence;
  try (rewrite Hc in *; discriminate);
  red_x; lookups; bools;
  try (exfalso; by match goal with Hn : ¬ is_Some _ |- _ => apply Hn end);
  try (exfalso; by match goal with Hn : is_Some None |- _ => destruct Hn end).

Section more_sub_runs.
Context `{Externals} (net : Network).

(** What else an upload made by the loop does and does not: it deals with
    its server and the blob only, sends at most three requests and calls at
    most one resolver; what was granted to it is added to the cache; the
    credential it sends matches the server or was granted for it; and it
    asks for a credential only when none of the cache matches. *)
Lemma upload_in_run_more opts blob server w :
  let c := ViaHandlers.uploadBlob net server blob (uploadOptions opts blob) in
  Forall (about server blob) (events c w)
  ∧ (count isFetch (events c w) ≤ 3)%nat
  ∧ (count isOnAuth (events c w) + count isOnPayment (events c w) ≤ 1)%nat
  ∧ authEvents (c w).2 = authEvents w ++ grantedCredentials (events c w)
  ∧ sentWhereItBelongs blob [] (events c w)
  ∧ askedWhenNeeded blob (authEvents w) (events c w)
  ∧ withoutResolvers opts (authEvents w) (events c w).
Proof.
  intros c; subst c.
  match goal with |- context [?f w] =>
    lazymatch f with ViaHandlers.uploadBlob _ _ _ _ => hide (f w) end end.
  unfold_run; exec; unhide.
  all: split_and!; tidy;
    [ each_event; by red_x | red_x; lia | red_x; lia
    | red_x; by rewrite ?app_nil_r | red_x; lookups; belongs
    | red_x; belongs
    | unresolved ].
Qed.

(** The same for a mirror, which sends at most three requests and calls
    the resolvers at most twice. *)
Lemma mirror_in_run_more opts blob server source w :
  let c := mirrorBlob net server source (mirrorOptions opts blob) in
  Forall (about server blob) (events c w)
  ∧ (count isFetch (events c w) ≤ 3)%nat
  ∧ (count isOnAuth (events c w) + count isOnPayment (events c w) ≤ 2)%nat
  ∧ authEvents (c w).2 = authEvents w ++ grantedCredentials (events c w)
  ∧ sentWhereItBelongs blob [] (events c w)
  ∧ askedWhenNeeded blob (authEvents w) (events c w)
  ∧ withoutResolvers opts (authEvents w) (events c w).
Proof.
  intros c; subst c.
  match goal with |- context [?f w] =>
    lazymatch f with mirrorBlob _ _ _ _ => hide (f w) end end.
  unfold_run; exec; unhide.
  all: split_and!; tidy;
    [ each_event; by red_x | red_x; lia | red_x; lia
    | red_x; by rewrite ?app_nil_r | red_x; lookups; belongs
    | red_x; belongs
    | unresolved ].
Qed.

End more_sub_runs.

(** The observations of the credentials, on a trace made of parts. *)
Section credentials_along_a_trace.
Context `{Externals}.

Lemma grantedCredentials_app (a b : list Event) :
  grantedCredentials (a ++ b) = grantedCredentials a ++ grantedCredentials b.
Proof. apply omap_app. Qed.

Lemma sentWhereItBelongs_more blob fresh fresh' (t : list Event) :
  fresh ⊆ fresh' →
  sentWhereItBelongs blob fresh t → sentWhereItBelongs blob fresh' t.
Proof.
  revert fresh fresh'. induction t as [|e t IH]; intros fresh fresh' Hsub; [done|].
  destruct e as [req ?|s b [a|]| | |]; cbn; eauto.
  - intros [Hh Ht]. split; [|by eapply IH].
    destruct (headers req !! "Authorization"); [|done].
    destruct Hh as (a & -> & [Hm|Hin]); exists a; split; auto.
  - apply IH. by apply list_subseteq_skip.
Qed.

Lemma sentWhereItBelongs_app blob fresh (a b : list Event) :
  sentWhereItBelongs blob fresh a → sentWhereItBelongs blob [] b →
  sentWhereItBelongs blob fresh (a ++ b).
Proof.
  revert fresh. induction a as [|e a IH]; intros fresh; cbn [app].
  - intros _. apply sentWhereItBelongs_more, list_subseteq_nil.
  - destruct e as [req ?|s b' [c|]| | |]; cbn; eauto.
    intros [Hh Ha] Hb. split; auto.
Qed.

Lemma askedWhenNeeded_app blob cache (a b : list Event) :
  askedWhenNeeded blob cache (a ++ b)
  ↔ askedWhenNeeded blob cache a
    ∧ askedWhenNeeded blob (cache ++ grantedCredentials a) b.
Proof.
  revert cache. induction a as [|e a IH]; intros cache; cbn [app].
  - cbn. rewrite app_nil_r. tauto.
  - destruct e as [req ?|s b' [c|]| | |]; cbn; rewrite ?IH; try tauto.
    + rewrite <- app_assoc. cbn. tauto.
    + rewrite app_nil_r. tauto.
Qed.

Lemma grantedCredentials_none (t : list Event) :
  count isOnAuth t = 0%nat → grantedCredentials t = [].
Proof.
  induction t as [|e t IH]; [done|].
  destruct e as [|s b [a|]| | |]; cbn; try done; apply IH.
Qed.

Lemma withoutResolvers_app opts cache (a b : list Event) :
  withoutResolvers opts cache a →
  withoutResolvers opts (cache ++ grantedCredentials a) b →
  withoutResolvers opts cache (a ++ b).
Proof.
  intros [Hpa Haa] [Hpb Hab]. split.
  - intros Hp. destruct (Hpa Hp) as [Ha1 Ha2], (Hpb Hp) as [Hb1 Hb2].
    by rewrite !count_app, Ha1, Ha2, Hb1, Hb2.
  - intros Ha Hc. destruct (Haa Ha Hc) as [Ha1 Ha2].
    destruct (Hab Ha) as [Hb1 Hb2].
    { by rewrite Hc, (grantedCredentials_none a Ha1). }
    by rewrite !count_app, Ha1, Ha2, Hb1, Hb2.
Qed.

End credentials_along_a_trace.

Section more_steps.
Context `{Externals} (net : Network).

(** The same facts, between the states before and after. *)
Lemma run_upload_more opts blob server w r w1 :
  ViaHandlers.uploadBlob net server blob (uploadOptions opts blob) w = (r, w1) →
  Forall (about server blob) (appended w w1)
  ∧ (count isFetch (appended w w1) ≤ 3)%nat
  ∧ (count isOnAuth (appended w w1) + count isOnPayment (appended w w1) ≤ 1)%nat
  ∧ authEvents w1 = authEvents w ++ grantedCredentials (appended w w1)
  ∧ sentWhereItBelongs blob [] (appended w w1)
  ∧ askedWhenNeeded blob (authEvents w) (appended w w1)
  ∧ withoutResolvers opts (authEvents w) (appended w w1).
Proof.
  intros E. pose proof (upload_in_run_more net opts blob server w) as Hu.
  cbv zeta in Hu. unfold events in Hu. by rewrite E in Hu.
Qed.

Lemma run_mirror_more opts blob server source w r w1 :
  mirrorBlob net server source (mirrorOptions opts blob) w = (r, w1) →
  Forall (about server blob) (appended w w1)
  ∧ (count isFetch (appended w w1) ≤ 3)%nat
  ∧ (count isOnAuth (appended w w1) + count isOnPayment (appended w w1) ≤ 2)%nat
  ∧ authEvents w1 = authEvents w ++ grantedCredentials (appended w w1)
  ∧ sentWhereItBelongs blob [] (appended w w1)
  ∧ askedWhenNeeded blob (authEvents w) (appended w w1)
  ∧ withoutResolvers opts (authEvents w) (appended w w1).
Proof.
  intros E. pose proof (mirror_in_run_more net opts blob server source w) as Hm.
  cbv zeta in Hm. unfold events in Hm. by rewrite E in Hm.
Qed.

(** The step for one server: what the mirror and the upload do, and the
    notification. *)
Lemma step_more opts blob server w :
  let c := serverStep net opts blob server in
  Forall (about server blob) (events c w)
  ∧ (count isFetch (events c w) ≤ 6)%nat
  ∧ (count isOnAuth (events c w) + count isOnPayment (events c w) ≤ 3)%nat
  ∧ authEvents (c w).2 = authEvents w ++ grantedCredentials (events c w)
  ∧ sentWhereItBelongs blob [] (events c w)
  ∧ askedWhenNeeded blob (authEvents w) (events c w)
  ∧ withoutResolvers opts (authEvents w) (events c w).
Proof.
  intros c; subst c.
  hide (serverStep net opts blob server w).
  unfold serverStep. exec; unhide; red_m.
  all: repeat match goal with
       | E : mirrorBlob _ _ _ _ _ = _ |- _ =>
           let Hm := fresh "Hm" in
           pose proof (run_mirror_more _ _ _ _ _ _ _ E) as Hm;
           unfold appended in Hm; revert E
       | E : ViaHandlers.uploadBlob _ _ _ _ _ = _ |- _ =>
           let Hu := fresh "Hu" in
           pose proof (run_upload_more _ _ _ _ _ _ E) as Hu;
           unfold appended in Hu; revert E
       end; intros.
  all: sub_runs; tidy.
  all: repeat match goal with
       | Hm : Forall _ _ ∧ _ |- _ =>
           let Ha := fresh "Ha" in
           let Hf := fresh "Hf" in
           let Hc := fresh "Hc" in
           let He := fresh "He" in
           let Hsn := fresh "Hsn" in
           let Hak := fresh "Hak" in
           let Hwr := fresh "Hwr" in
           destruct Hm as (Ha & Hf & Hc & He & Hsn & Hak & Hwr)
       end.
  all: repeat match goal with
       | E : authEvents ?x = _, Hk : askedWhenNeeded _ (authEvents ?x) _ |- _ =>
           rewrite E in Hk
       | E : authEvents ?x = _, Hk : withoutResolvers _ (authEvents ?x) _ |- _ =>
           rewrite E in Hk
       end.
  all: split_and!;
    [ rewrite ?Forall_app; split_and?; try done; each_event; by red_x
    | rewrite ?count_app; red_x; lia
    | rewrite ?count_app; red_x; lia
    | rewrite ?grantedCredentials_app; red_x; rewrite ?app_nil_r;
      repeat match goal with
      | E : authEvents _ = _ ++ _ |- _ => rewrite E; clear E
      end; by rewrite ?app_assoc
    | repeat (apply sentWhereItBelongs_app; [done|]); try done; by red_x
    | rewrite ?askedWhenNeeded_app; split_and?; try done; by red_x
    | repeat (apply withoutResolvers_app; [done|]);
      first [done | split; intros; by red_x] ].
Qed.
(** The whole loop. *)
Lemma loop_more opts blob servers w :
  let c := forEachServer net opts blob servers in
  Forall (within servers blob) (events c w)
  ∧ (count isFetch (events c w) ≤ 6 * length servers)%nat
  ∧ (count isOnAuth (events c w) + count isOnPayment (events c w)
     ≤ 3 * length servers)%nat
  ∧ authEvents (c w).2 = authEvents w ++ grantedCredentials (events c w)
  ∧ sentWhereItBelongs blob [] (events c w)
  ∧ askedWhenNeeded blob (authEvents w) (events c w)
  ∧ withoutResolvers opts (authEvents w) (events c w).
Proof.
  intros c; subst c. revert w.
  induction servers as [|server rest IH]; intros w.
  - unfold events, appended. cbn. rewrite drop_trace_nil. cbn.
    rewrite app_nil_r. split_and!; try done; lia.
  - cbn [forEachServer].
    pose proof (step_extends net opts blob server w) as Hex. cbv zeta in Hex.
    rewrite (events_bind _ _ _ Hex)
      by (intros _ w1; apply (loop_extends net opts blob rest w1)).
    destruct (step_more opts blob server w)
      as (Ha & Hf & Hc & He & Hsn & Hak & Hwr).
    assert (Forall (within (server :: rest) blob)
              (events (serverStep net opts blob server) w)) as Hw.
    { eapply Forall_impl; [exact Ha|]. intros e Habout.
      exists server. split; [apply list_elem_of_here|done]. }
    unfold bind.
    destruct (serverStep net opts blob server w) as [[[]|e] w1];
      cbn [fst snd length] in *.
    + destruct (IH w1) as (Ha1 & Hf1 & Hc1 & He1 & Hsn1 & Hak1 & Hwr1).
      rewrite !count_app, grantedCredentials_app, askedWhenNeeded_app.
      split_and!; try lia.
      * apply Forall_app. split; [done|].
        eapply Forall_impl; [exact Ha1|]. intros e (s & Hs & Habout).
        exists s. split; [by apply list_elem_of_further|done].
      * by rewrite He1, He, app_assoc.
      * by apply sentWhereItBelongs_app.
      * done.
      * by rewrite <- He.
      * apply withoutResolvers_app; [done|]. by rewrite <- He.
    + rewrite app_nil_r. split_and!; try done; lia.
Qed.

(** X12. A run deals with the servers of the list and with the blob, and
    with nothing else: every request goes to a server of the list, and every
    call of a callback of the caller is about a server of the list and the
    blob that was given, also when it is a mirror that has to be paid or
    authorized. *)
Theorem a_run_stays_within_the_list servers blob opts w :
  Forall (within servers blob)
    (events (multiServerUpload net servers blob opts) w).
Proof.
  destruct (multi_run net servers blob opts w) as (_ & -> & _).
  apply loop_more.
Qed.

(** X13. No storm of requests: a run sends at most six requests for each
    server of the list (three for the mirror, which may be asked for a
    credential and then for a payment, and three for the upload), and calls
    the resolvers at most three times for each (twice for the mirror, once
    for the upload). *)
Theorem requests_of_a_run servers blob opts w :
  let c := multiServerUpload net servers blob opts in
  (count isFetch (events c w) ≤ 6 * length servers)%nat
  ∧ (count isOnAuth (events c w) + count isOnPayment (events c w)
     ≤ 3 * length servers)%nat.
Proof.
  intros c; subst c.
  destruct (multi_run net servers blob opts w) as (_ & -> & _).
  destruct (loop_more opts blob servers (started opts w)) as (_ & ? & ? & _).
  done.
Qed.

(** X14. A credential goes only where it belongs: every [Authorization]
    header of a run holds a credential that matches the server it is sent
    to, or one the resolver has granted for this very server earlier in the
    run. [opts.auth], in particular, is sent only to the servers it matches. *)
Theorem credentials_go_where_they_belong servers blob opts w :
  sentWhereItBelongs blob []
    (events (multiServerUpload net servers blob opts) w).
Proof.
  destruct (multi_run net servers blob opts w) as (_ & -> & _).
  apply loop_more.
Qed.

(** X15. The resolver is asked only when it must be. At each call of
    [onAuth] for a server, none of the credentials held then ([opts.auth],
    and what [onAuth] has granted so far in the run, for whatever server)
    matches that server; and at the end the cache holds just those, in
    order. *)
Theorem the_resolver_is_asked_when_needed servers blob opts w :
  let c := multiServerUpload net servers blob opts in
  let seed := match ms_auth opts with Some auth => [auth] | None => [] end in
  askedWhenNeeded blob seed (events c w)
  ∧ authEvents (c w).2 = seed ++ grantedCredentials (events c w).
Proof.
  intros c seed; subst c seed.
  destruct (multi_run net servers blob opts w) as (-> & -> & _).
  destruct (loop_more opts blob servers (started opts w))
    as (_ & _ & _ & He & _ & Hak & _).
  done.
Qed.

(** X16. What a run does not do without the caller's resolvers. Without
    [onPayment] the payment resolver is, of course, not called, and no
    request carries a payment. Without [opts.auth] and [onAuth] no request
    carries a credential. *)
Theorem nothing_without_a_resolver servers blob opts w :
  let c := multiServerUpload net servers blob opts in
  (ms_onPayment opts = None →
     count isOnPayment (events c w) = 0%nat
     ∧ count (carries "X-Cashu") (events c w) = 0%nat)
  ∧ (ms_auth opts = None → ms_onAuth opts = None →
       count isOnAuth (events c w) = 0%nat
       ∧ count (carries "Authorization") (events c w) = 0%nat).
Proof.
  intros c; subst c.
  destruct (multi_run net servers blob opts w) as (_ & -> & _).
  destruct (loop_more opts blob servers (started opts w))
    as (_ & _ & _ & _ & _ & _ & Hp & Ha).
  split; [done|]. intros Hauth Hon. apply Ha; [done|].
  unfold started. cbn. by rewrite Hauth.
Qed.

End more_steps.

(** ** The run, step by step *)

Section in_steps.
Context `{Externals} (net : Network).

(** Each step sends a request to its server, unless the server is not a
    URL: then it sends nothing. *)
Lemma step_contacts opts blob server w :
  let step := events (serverStep net opts blob server) w in
  if canParse server then server ∈ contacted step else contacted step = [].
Proof.
  intros step; subst step.
  destruct (step_by_attempt net opts blob server w) as (t & -> & Ht & _).
  destruct (attempt_contacts net opts blob server w) as (Hc & _).
  cbv zeta in Hc. rewrite contacted_app.
  assert (contacted t = []) as ->.
  { destruct (outcome (attempt net opts blob server) w); cbn in Ht.
    - by destruct Ht as [->|[[? ->]|(? & ? & ->)]].
    - by destruct Ht as [->|[? ->]]. }
  rewrite app_nil_r. destruct (canParse server); [done|].
  by destruct Hc as [-> _].
Qed.

(** The loop, cut into its steps. *)
Lemma loop_in_steps opts blob servers w :
  let c := forEachServer net opts blob servers in
  ∃ steps : list (list Event),
    events c w = concat steps
    ∧ Forall2 (λ server step,
                 Forall (about server blob) step
                 ∧ if canParse server then server ∈ contacted step
                   else contacted step = [])
        (take (length steps) servers) steps
    ∧ (length steps ≤ length servers)%nat
    ∧ (outcome c w = Ok tt → length steps = length servers).
Proof.
  intros c; subst c. revert w.
  induction servers as [|server rest IH]; intros w.
  - exists []. unfold events, appended, outcome. cbn. rewrite drop_trace_nil.
    split_and!; done.
  - cbn [forEachServer].
    pose proof (step_extends net opts blob server w) as Hex. cbv zeta in Hex.
    rewrite (events_bind _ _ _ Hex)
      by (intros _ w1; apply (loop_extends net opts blob rest w1)).
    destruct (step_more net opts blob server w) as (Ha & _).
    pose proof (step_contacts opts blob server w) as Hc. cbv zeta in Hc.
    unfold outcome, bind in *.
    destruct (serverStep net opts blob server w) as [[[]|e] w1];
      cbn [fst snd] in *.
    + destruct (IH w1) as (steps & Hev & Hall & Hlen & Hok).
      exists (events (serverStep net opts blob server) w :: steps).
      rewrite Hev. cbn [concat length take]. split_and!.
      * done.
      * by constructor.
      * lia.
      * intros Ho. by rewrite (Hok Ho).
    + exists [events (serverStep net opts blob server) w].
      cbn [concat length take]. rewrite take_0. split_and!; try done.
      * by repeat constructor.
      * lia.
Qed.

(** X17. The servers are dealt with one after the other, in the order of
    the list: what a run does is what its steps do, put end to end, one
    step for each server of the list, in order; each step is about its own
    server only, and sends it at least one request when the server is a URL
    and none when it is not. The run stops short of the end of the list
    only when [onError] throws: when the mapping is returned, every server
    of the list has had its step. *)
Theorem one_server_after_the_other servers blob opts w :
  let c := multiServerUpload net servers blob opts in
  ∃ steps : list (list Event),
    events c w = concat steps
    ∧ Forall2 (λ server step,
                 Forall (about server blob) step
                 ∧ if canParse server then server ∈ contacted step
                   else contacted step = [])
        (take (length steps) servers) steps
    ∧ (length steps ≤ length servers)%nat
    ∧ (∀ m, outcome c w = Ok m → length steps = length servers).
Proof.
  intros c; subst c.
  destruct (multi_run net servers blob opts w) as (_ & -> & ->).
  destruct (loop_in_steps opts blob servers (started opts w))
    as (steps & Hev & Hall & Hlen & Hok).
  exists steps. split_and!; try done.
  intros m Hm. apply Hok.
  by destruct (outcome (forEachServer net opts blob servers) (started opts w))
    as [[]|].
Qed.

End in_steps.

Section a_list_of_one.
Context `{Externals} (net : Network).

(** X18. On a list of one server, [multiServerUpload] is the upload to that
    server, with the resolvers of the run, followed by the notification:
    nothing is mirrored, the caller is told of the outcome of the upload
    (or of the failure of [onUpload]), and the mapping holds the server
    exactly when the upload has returned. *)
Theorem a_list_of_one_server server blob opts w :
  let c := multiServerUpload net [server] blob opts in
  let u := ViaHandlers.uploadBlob net server blob (uploadOptions opts blob) in
  ∃ t, events c w = events u (started opts w) ++ t
       ∧ told server blob (outcome u (started opts w)) t
       ∧ results (c w).2 = match outcome u (started opts w) with
                           | Ok v => {[ server := v ]}
                           | Throw _ => ∅
                           end.
Proof.
  intros c u; subst c u.
  destruct (multi_run net [server] blob opts w) as (-> & -> & _).
  cbn [forEachServer].
  pose proof (step_extends net opts blob server (started opts w)) as Hex.
  cbv zeta in Hex.
  rewrite (events_bind _ _ _ Hex).
  2:{ intros _ w1. unfold events, appended, ret. cbn.
      by rewrite drop_trace_nil, app_nil_r. }
  pose proof (step_shape net opts blob server (started opts w)) as Hd.
  cbv zeta in Hd. cbn [started initialUpload] in Hd.
  unfold events, outcome, bind, ret in *.
  replace (appended (started opts w) (started opts w)) with (@nil Event) in Hd
    by (symmetry; apply drop_trace_nil).
  destruct (ViaHandlers.uploadBlob net server blob (uploadOptions opts blob)
              (started opts w)) as [r w2]; cbn [fst snd] in *.
  destruct Hd as (t & Hev & Ht & Hr). exists t.
  destruct (serverStep net opts blob server (started opts w)) as [[[]|e] w1];
    cbn [fst snd] in *.
  - unfold appended at 2. cbn. rewrite drop_trace_nil, app_nil_r.
    by split_and!.
  - rewrite app_nil_r. by split_and!.
Qed.

End a_list_of_one.

(** ** The listing *)

Ltac unfold_list :=
  cbv beta delta [ListBlobs.listBlobs ListBlobs.bind ListBlobs.ret
    ListBlobs.throw ListBlobs.fetch ListBlobs.callOnAuth
    ListBlobs.callOnPayment ListBlobs.handleErrorResponse ListBlobs.json
    ListBlobs.newURL ListBlobs.dynamicImport ListBlobs.readPaymentRequest
    ListBlobs.events ListBlobs.outcome].

Ltac red_list :=
  cbn [fst snd ListBlobs.status ListBlobs.res_headers ListBlobs.res_body
       ListBlobs.url ListBlobs.signal ListBlobs.headers ListBlobs.pathname
       ListBlobs.base ListBlobs.searchParams ListBlobs.opts_signal
       ListBlobs.opts_auth ListBlobs.opts_since ListBlobs.opts_until
       ListBlobs.opts_onPayment ListBlobs.opts_onAuth app length List.filter
       count ListBlobs.isFetch ListBlobs.isCall last removelast].

(** The server of the URL of a listing is the server it was made for. *)
Ltac server_of_list :=
  repeat match goal with
  | |- context [ListBlobs.base (ListBlobs.listURL ?s ?p ?o)] =>
      change (ListBlobs.base (ListBlobs.listURL s p o)) with s
  end.

Ltac step_list :=
  match goal with
  | Hu : canParse ?s = _ |- context [canParse ?s] => rewrite Hu; red_list
  | |- context [bool_decide ?P] =>
      destruct (bool_decide_reflect P); red_list; try lia
  | |- context [decide ?P] => destruct (decide P); red_list; try lia
  | |- context [match ?x with _ => _ end] =>
      lazymatch x with
      | context [match _ with _ => _ end] => fail
      | _ => destruct x eqn:?
      end; red_list
  end.

Ltac run_list t :=
  unfold ListBlobs.events, ListBlobs.outcome;
  match goal with
  | |- context [?f t] =>
      lazymatch f with ListBlobs.listBlobs _ _ _ _ => hide (f t) end
  end;
  unfold_list; unfold ListBlobs.ok; server_of_list; red_list;
  repeat step_list; unhide;
  red_list; rewrite <- ?app_assoc; rewrite ?drop_app_length, ?drop_all;
  red_list.

(** Read a result off a response whose status and body are known. *)
Ltac responses_list :=
  unfold ListBlobs.fromResponse, ListBlobs.ok;
  repeat match goal with
  | E : ListBlobs.res_body ?r = _ |- context [ListBlobs.res_body ?r] =>
      rewrite E
  | |- context [bool_decide ?P] =>
      first [ rewrite (bool_decide_eq_true_2 P) by (done || lia)
            | rewrite (bool_decide_eq_false_2 P) by (done || lia) ]
  end.

(** The run of the goal is one of the runs listed. *)
Ltac shape_list := repeat eexists; responses_list; try done; try lia.
Ltac pick_list :=
  first [ solve [shape_list] | left; solve [shape_list] | right; pick_list ].

Section listing.
Import ListBlobs.
Context `{Externals} `{Numbers} (net : Network).

(** X19. The requests of a listing. It opens with the [GET] of the URL,
    without a header; every request is for that same URL and carries the
    caller's signal; a request carries a credential or a payment, never
    both. There are at most two requests, and at most one call of a
    resolver: nothing is tried a third time. When the server is not a URL
    nothing is sent at all. *)
Theorem requests_of_a_listing server pubkey opts t :
  let c := listBlobs net server pubkey opts in
  let target := listURL server pubkey opts in
  (if canParse server then
     ∃ res rest,
       events c t = EvFetch (mkRequest target (opts_signal opts) ∅) res :: rest
   else events c t = [])
  ∧ Forall (listRequest target (opts_signal opts)) (events c t)
  ∧ (count isFetch (events c t) ≤ 2)%nat
  ∧ (count isCall (events c t) ≤ 1)%nat.
Proof.
  intros c target; subst c target.
  run_list t.
  all: split_and!; [requests; first [done | by eexists _, _] | | lia | lia].
  all: repeat first [apply Forall_nil_2 | apply Forall_cons_2];
    unfold ListBlobs.listRequest; red_list; eauto 6.
Qed.

(** X20. A listing answered 401. The credential is [opts.auth] when there is
    one, and then the resolver is not called; otherwise it is what [onAuth]
    gives, called once; without either the listing fails with "Missing auth
    handler". The request is sent again, once, with the credential, and the
    result is read off the second answer: a 401 that persists is a failure,
    and nothing is asked again. *)
Theorem a_listing_asks_for_a_credential server pubkey opts t res :
  let c := listBlobs net server pubkey opts in
  let target := listURL server pubkey opts in
  let first := EvFetch (mkRequest target (opts_signal opts) ∅) in
  let again a :=
    EvFetch (mkRequest target (opts_signal opts)
               {[ "Authorization" := encodeAuthorizationHeader a ]}) in
  canParse server = true →
  net t (mkRequest target (opts_signal opts) ∅) = Ok res →
  status res = 401 →
  match opts_auth opts, opts_onAuth opts with
  | Some a, _ =>
      ∃ r, events c t = [first (Ok res); again a r]
           ∧ outcome c t = match r with
                           | Ok res' => fromResponse res'
                           | Throw e => Throw e
                           end
  | None, Some _ =>
      (∃ e, events c t = [first (Ok res); EvOnAuth server (Throw e)]
            ∧ outcome c t = Throw e)
      ∨ (∃ a r, events c t = [first (Ok res); EvOnAuth server (Ok a); again a r]
                ∧ outcome c t = match r with
                                | Ok res' => fromResponse res'
                                | Throw e => Throw e
                                end)
  | None, None =>
      events c t = [first (Ok res)]
      ∧ outcome c t = Throw (Error "Error" "Missing auth handler")
  end.
Proof.
  intros c target first again Hu Hres Hs; subst c target first again. cbv beta.
  run_list t.
  all: simplify_eq; try lia.
  all: pick_list.
Qed.

(** X21. A listing answered 402. Without a payment resolver it fails with
    "Missing payment handler". With one, the module of the tokens is loaded
    and the request for the payment is read from the headers of the 402:
    when either fails, the listing fails with that error and the resolver is
    not called. Otherwise the resolver is called once, with the request
    read; the listing is asked for again, once, with the token, and the
    result is read off the second answer. The credential plays no part. *)
Theorem a_listing_pays server pubkey opts t res :
  let c := listBlobs net server pubkey opts in
  let target := listURL server pubkey opts in
  let first := EvFetch (mkRequest target (opts_signal opts) ∅) in
  let again token :=
    EvFetch (mkRequest target (opts_signal opts)
               {[ "X-Cashu" := getEncodedToken token ]}) in
  canParse server = true →
  net t (mkRequest target (opts_signal opts) ∅) = Ok res →
  status res = 402 →
  match opts_onPayment opts with
  | None =>
      events c t = [first (Ok res)]
      ∧ outcome c t = Throw (Error "Error" "Missing payment handler")
  | Some _ =>
      match importCashu, getPaymentRequestFromHeaders (res_headers res) with
      | Some (name, message), _ | None, inr (name, message) =>
          events c t = [first (Ok res)]
          ∧ outcome c t = Throw (Error name message)
      | None, inl request =>
          let pay := EvOnPayment server request in
          (∃ e, events c t = [first (Ok res); pay (Throw e)]
                ∧ outcome c t = Throw e)
          ∨ (∃ token r,
               events c t = [first (Ok res); pay (Ok token); again token r]
               ∧ outcome c t = match r with
                               | Ok res' => fromResponse res'
                               | Throw e => Throw e
                               end)
      end
  end.
Proof.
  intros c target first again Hu Hres Hs; subst c target first again.
  cbv beta.
  run_list t.
  all: simplify_eq; try lia.
  all: requests; cbv zeta; first [done | pick_list].
Qed.

(** X22. Any other first answer ends the listing: a rejected request fails
    with the rejection, and an answer that is neither a 401 nor a 402 is the
    result, a failure with its status unless it is a success. A 403, in
    particular, is not a request for a credential. When the server is not a
    URL the listing fails before any request. *)
Theorem a_listing_without_a_challenge server pubkey opts t :
  let c := listBlobs net server pubkey opts in
  let request := mkRequest (listURL server pubkey opts) (opts_signal opts) ∅ in
  if canParse server then
    match net t request with
    | Throw e => events c t = [EvFetch request (Throw e)] ∧ outcome c t = Throw e
    | Ok res =>
        status res ≠ 401 → status res ≠ 402 →
        events c t = [EvFetch request (Ok res)] ∧ outcome c t = fromResponse res
    end
  else events c t = [] ∧ outcome c t = Throw (Error "TypeError" "Invalid URL").
Proof.
  intros c request; subst c request.
  destruct (canParse server) eqn:Hu.
  - run_list t.
    all: try done.
    all: intros; split; [done|]; responses_list; done.
  - by run_list t.
Qed.

(** X23. The query of a listing holds [since] and [until], in this order,
    each when it is given and is truthy, printed as [String] prints it. A
    bound that is falsy (zero, [NaN]) is no bound: the listing is the one
    without it. *)
Theorem the_query_of_a_listing server pubkey opts :
  let bound name value (p : string * string) :=
    p.1 = name
    ∧ ∃ n, value = Some n ∧ isTruthy n = true ∧ p.2 = numberToString n in
  let with_since since :=
    mkOptions (opts_signal opts) (opts_auth opts) since (opts_until opts)
      (opts_onPayment opts) (opts_onAuth opts) in
  let with_until until :=
    mkOptions (opts_signal opts) (opts_auth opts) (opts_since opts) until
      (opts_onPayment opts) (opts_onAuth opts) in
  (∀ p, p ∈ searchParams (listURL server pubkey opts)
        ↔ bound "since" (opts_since opts) p ∨ bound "until" (opts_until opts) p)
  ∧ (length (searchParams (listURL server pubkey opts)) ≤ 2)%nat
  ∧ (∀ n m, opts_since opts = Some n → opts_until opts = Some m →
       isTruthy n = true → isTruthy m = true →
       searchParams (listURL server pubkey opts)
       = [("since", numberToString n); ("until", numberToString m)])
  ∧ (∀ n, isTruthy n = false →
       listBlobs net server pubkey (with_since (Some n))
       = listBlobs net server pubkey (with_since None))
  ∧ (∀ n, isTruthy n = false →
       listBlobs net server pubkey (with_until (Some n))
       = listBlobs net server pubkey (with_until None)).
Proof.
  intros bound with_since with_until; subst bound with_since with_until.
  cbv beta.
  split_and!.
  - intros [k v]. unfold listURL. cbn [searchParams fst snd].
    destruct (opts_since opts) as [n|], (opts_until opts) as [m|];
      cbn [appendParam app];
      try destruct (isTruthy n) eqn:?; try destruct (isTruthy m) eqn:?;
      cbn [app]; rewrite ?elem_of_cons, ?elem_of_nil; naive_solver congruence.
  - unfold listURL. cbn [searchParams].
    destruct (opts_since opts) as [n|], (opts_until opts) as [m|];
      cbn [appendParam app];
      try destruct (isTruthy n); try destruct (isTruthy m); cbn; lia.
  - intros n m Hn Hm Htn Htm. unfold listURL. cbn [searchParams].
    rewrite Hn, Hm. cbn [appendParam]. by rewrite Htn, Htm.
  - intros n Hn. unfold listBlobs, listURL. cbn [opts_since opts_until appendParam].
    by rewrite Hn.
  - intros n Hn. unfold listBlobs, listURL. cbn [opts_since opts_until appendParam].
    by rewrite Hn.
Qed.

End listing.

(** ** More concrete runs *)

Section more_examples.
#[local] Existing Instance demo.
#[local] Existing Instance timestamps.

Lemma paid_upload_via_handlers_witness :
  canParse "A" = true
  ∧ checkedWith (checkAnswers 402) "A" 402
  ∧ count isOnAuth
      (events (ViaHandlers.uploadBlob (checkAnswers 402) "A" "abc" viaHandlers)
         emptyWorld) = 0%nat.
Proof.
  split; [reflexivity|]. split; [apply checks_answer|].
  apply (paid_upload_via_handlers (checkAnswers 402) "A" "abc" None None
           (Some pays) (Some (signsFor "*")) emptyWorld eq_refl
           (checks_answer 402 "A")).
Defined.

Lemma paid_upload_via_switch_witness :
  canParse "A" = true
  ∧ checkedWith (checkAnswers 402) "A" 402
  ∧ count isOnAuth
      (events (ViaSwitch.uploadBlob (checkAnswers 402) "A" "abc" viaSwitch)
         emptyWorld) = 1%nat.
Proof.
  split; [reflexivity|]. split; [apply checks_answer|].
  destruct (paid_upload_via_switch (checkAnswers 402) "A" "abc" None None
              (Some pays) (Some (signsFor "*")) emptyWorld eq_refl
              (checks_answer 402 "A"))
    as (res & Hs & Hcases).
  cbn [importCashu getPaymentRequestFromHeaders demo] in Hcases.
  unfold viaSwitch.
  destruct (res_headers res !! "X-Cashu") as [request|];
    [destruct Hcases as [(e & Hev & _)|(token & paid & Hev & _)]
    |destruct Hcases as [Hev _]];
    rewrite Hev; reflexivity.
Defined.

Lemma a_check_without_a_challenge_witness :
  canParse "A" = true
  ∧ checkedWith (checkAnswers 500) "A" 500
  ∧ ∃ res,
      status res = 500
      ∧ events
          (ViaHandlers.uploadBlob (checkAnswers 500) "A" "abc" viaHandlers)
          emptyWorld
        = [EvFetch (mkRequest HEAD (mkURL "/upload" "A") None
                      (ViaHandlers.checkHeaders "abc") NoBody) (Ok res)]
      ∧ outcome
          (ViaHandlers.uploadBlob (checkAnswers 500) "A" "abc" viaHandlers)
          emptyWorld = Throw (HTTPError 500 (res_body res)).
Proof.
  split; [reflexivity|]. split; [apply checks_answer|].
  apply (a_check_without_a_challenge (checkAnswers 500) "A" "abc" None None
           (Some pays) (Some (signsFor "*")) 500 emptyWorld eq_refl
           (checks_answer 500 "A")); lia.
Defined.

Lemma authorized_upload_via_handlers_witness :
  canParse "A" = true
  ∧ checkedWith (checkAnswers 403) "A" 403
  ∧ count isOnPayment
      (events (ViaHandlers.uploadBlob (checkAnswers 403) "A" "abc" viaHandlers)
         emptyWorld) = 0%nat.
Proof.
  split; [reflexivity|]. split; [apply checks_answer|].
  apply (authorized_upload_via_handlers (checkAnswers 403) "A" "abc" None None
           (Some pays) (Some (signsFor "*")) emptyWorld eq_refl
           (checks_answer 403 "A")).
Defined.

Lemma switch_ignores_other_statuses_witness :
  canParse "A" = true
  ∧ checkedWith (checkAnswers 500) "A" 500
  ∧ count isPut
      (events (ViaSwitch.uploadBlob (checkAnswers 500) "A" "abc" viaSwitch)
         emptyWorld) = 1%nat.
Proof.
  split; [reflexivity|]. split; [apply checks_answer|].
  destruct (switch_ignores_other_statuses (checkAnswers 500) "A" "abc" None
              None (Some pays) (Some (signsFor "*")) 500 emptyWorld eq_refl
              (checks_answer 500 "A")) as (res & sent & Hs & Hev & _);
    [lia..|].
  unfold viaSwitch. rewrite Hev. reflexivity.
Defined.

Lemma a_listing_asks_for_a_credential_witness :
  canParse "A" = true
  ∧ ListBlobs.status (ListBlobs.mkResponse 401 ∅ (ListBlobs.Json [])) = 401
  ∧ count ListBlobs.isCall
      (ListBlobs.events (ListBlobs.listBlobs (listing 401) "A" "key" lister) [])
    = 1%nat.
Proof.
  split; [reflexivity|]. split; [reflexivity|].
  destruct (a_listing_asks_for_a_credential (listing 401) "A" "key" lister
              [] (ListBlobs.mkResponse 401 ∅ (ListBlobs.Json []))
              eq_refl eq_refl eq_refl)
    as [(e & Hev & _)|(a & r & Hev & _)];
    rewrite Hev; reflexivity.
Defined.

Lemma a_listing_pays_witness :
  canParse "A" = true
  ∧ ListBlobs.status
      (ListBlobs.mkResponse 402 {[ "X-Cashu" := "creq" ]} (ListBlobs.Json []))
    = 402
  ∧ count ListBlobs.isCall
      (ListBlobs.events (ListBlobs.listBlobs (listing 402) "A" "key" lister) [])
    = 1%nat.
Proof.
  split; [reflexivity|]. split; [reflexivity|].
  destruct (a_listing_pays (listing 402) "A" "key" lister
              [] (ListBlobs.mkResponse 402 {[ "X-Cashu" := "creq" ]}
                    (ListBlobs.Json []))
              eq_refl eq_refl eq_refl)
    as [(e & Hev & _)|(token & r & Hev & _)];
    rewrite Hev; reflexivity.
Defined.

(** The upload with handlers, on a server that wants to be paid: the blob
    is sent with the token, then once more without it. *)
Example a_paid_blob_is_sent_twice :
  let c := ViaHandlers.uploadBlob (checkAnswers 402) "A" "abc" viaHandlers in
  count isPut (events c emptyWorld) = 2%nat
  ∧ count (carries "X-Cashu") (events c emptyWorld) = 1%nat
  ∧ outcome c emptyWorld = Ok (Some "https://A/abc").
Proof. by vm_compute. Qed.

(** The upload with handlers, on a server whose 402 does not say what it
    wants: the resolver is not called and no blob is sent. *)
Example an_unreadable_402_is_not_paid :
  let c := ViaHandlers.uploadBlob unreadable "A" "abc" viaHandlers in
  count isOnPayment (events c emptyWorld) = 0%nat
  ∧ count isPut (events c emptyWorld) = 0%nat
  ∧ outcome c emptyWorld = Throw (Error "Error" "Missing cashu header").
Proof. by vm_compute. Qed.

(** The upload with the [switch], on a server whose check fails with a 500:
    the blob is sent all the same. *)
Example a_failed_check_does_not_stop_the_switch :
  let c := ViaSwitch.uploadBlob (checkAnswers 500) "A" "abc" viaSwitch in
  count isPut (events c emptyWorld) = 1%nat
  ∧ outcome c emptyWorld = Ok (Some "https://A/abc").
Proof. by vm_compute. Qed.

(** A run over a list that holds a name that is no URL: nothing is sent to
    it, the caller is told of the [TypeError], and the run goes on. *)
Example a_server_that_is_no_URL :
  let c := multiServerUpload (checkAnswers 200) [""; "B"] "abc"
             (toldOfAll None (signsFor "*")) in
  contacted (events c emptyWorld) = ["B"; "B"]
  ∧ reported (events c emptyWorld) = [("", Error "TypeError" "Invalid URL")]
  ∧ succeeded (events c emptyWorld) = ["B"].
Proof. by vm_compute. Qed.

(** A listing on a server that asks for a credential: one call of the
    resolver, two requests, and the list. *)
Example a_listing_with_a_credential :
  let c := ListBlobs.listBlobs (listing 401) "A" "key" lister in
  count ListBlobs.isFetch (ListBlobs.events c []) = 2%nat
  ∧ count ListBlobs.isCall (ListBlobs.events c []) = 1%nat
  ∧ ListBlobs.outcome c [] = ListBlobs.Ok ["https://A/abc"].
Proof. by vm_compute. Qed.

(** A listing since 0 is a listing without a bound. *)
Example a_listing_since_zero :
  ListBlobs.searchParams (ListBlobs.listURL "A" "key" lister) = [].
Proof. reflexivity. Qed.

End more_examples.

